(** * T_Scheduler: the task store, its validation and its persistence

    A shallow embedding of [src/T_Scheduler.py]: the [Task] class (the
    store), its [add_task], [save_to_json] and [load_from_json] methods,
    and the [add] and [view] command handlers.

    Python values are embedded as follows.
    - [str] is a sequence of Unicode code points, [list N]; every code
      point of a real [str] is below [0x110000] (see [wf_str]), and
      surrogate code points ([0xD800]-[0xDFFF]) may occur, as in Python.
    - [int] is [Z].
    - A task is the five-key dict built by [add_task]; it is embedded as
      the record [task].
    - The store object and the file system are threaded explicitly
      through a state-and-exception monad [M].
    - The standard-library calls the source makes
      ([datetime.strptime] with the format [%Y-%m-%d], [json.dump] with
      [indent = 4], [json.load], [max] with a default) are embedded from
      CPython 3.11.  Text files hold the characters written to them; the
      text layer is the identity on the ASCII text [json.dump] emits.
      Resource limits (memory, recursion depth, the integer digit limit,
      write failures) are not modelled.
    - The console library is not embedded.  The console of the state
      holds the objects handed to [console.print]; whether the library
      renders the cells of a table, which it reads as markup, or raises
      [MarkupError], is a parameter of [view]. *)

From Stdlib Require Import ZArith NArith List String Ascii Bool Lia Sorted.
From Stdlib Require Import DecimalFacts DecimalPos DecimalN DecimalZ.
From stdpp Require Import base option list gmap strings sorting.

Set Default Proof Using "Type".

(** ** Python strings *)

Abbreviation pystr := (list N).

(** The code points of a string literal of the source. *)
Definition lit (s : string) : pystr :=
  map N_of_ascii (list_ascii_of_string s).

(** Every [str] Python can build has code points in [0, 0x10FFFF]. *)
Definition wf_str (s : pystr) : bool := forallb (fun c => (c <? 0x110000)%N) s.

Definition is_high_surrogate (c : N) : bool := ((0xd800 <=? c) && (c <=? 0xdbff))%N.
Definition is_low_surrogate (c : N) : bool := ((0xdc00 <=? c) && (c <=? 0xdfff))%N.

(** The truth value of a [str]: only the empty string is false. *)
Definition truthy (s : pystr) : bool :=
  match s with
  | [] => false
  | _ :: _ => true
  end.

(** [s == t] on two [str] values. *)
Definition str_eqb (s t : pystr) : bool := bool_decide (s = t).

(** [x in l] for a list of [str]: the first element equal to [x] decides. *)
Fixpoint str_in (x : pystr) (l : list pystr) : bool :=
  match l with
  | [] => false
  | y :: l' => if str_eqb x y then true else str_in x l'
  end.

(** ** Integers as decimal text: [int.__repr__] and [str(int)] *)

Definition digit_chars (u : Decimal.uint) : pystr :=
  map (fun d : DecimalFacts.digits =>
         match d with
         | d0 => 48 | d1 => 49 | d2 => 50 | d3 => 51 | d4 => 52
         | d5 => 53 | d6 => 54 | d7 => 55 | d8 => 56 | d9 => 57
         end%N) (DecimalFacts.to_list u).

Definition int_repr (z : Z) : pystr :=
  match Z.to_int z with
  | Decimal.Pos u => digit_chars u
  | Decimal.Neg u => 45%N :: digit_chars u
  end.

(** ** The task record

    [add_task] builds the dict with the keys id, title, description,
    due_date and priority, in this order. *)

Record task : Type := mk_task {
  task_id : Z;
  task_title : pystr;
  task_description : pystr;
  task_due_date : pystr;
  task_priority : pystr
}.

#[global] Instance task_eq_dec : EqDecision task.
Proof. solve_decision. Defined.

(** The values a task dict holds. *)
Inductive atom : Type :=
| AInt (z : Z)
| AStr (s : pystr).

(** [task.items()], in insertion order. *)
Definition task_items (t : task) : list (pystr * atom) :=
  [ (lit "id", AInt (task_id t));
    (lit "title", AStr (task_title t));
    (lit "description", AStr (task_description t));
    (lit "due_date", AStr (task_due_date t));
    (lit "priority", AStr (task_priority t)) ].

(** ** [json.dump(obj, file, indent = 4)] *)

Section Encoder.
Local Open Scope N_scope.

(** Lower-case hexadecimal digit of a value below 16. *)
Definition hex_digit (n : N) : N := if n <? 10 then 48 + n else 87 + n.

(** The format [\u{0:04x}] for [n < 0x10000]. *)
Definition u_escape (n : N) : pystr :=
  [92; 117; hex_digit (n / 4096 mod 16); hex_digit (n / 256 mod 16);
   hex_digit (n / 16 mod 16); hex_digit (n mod 16)].

(** [ESCAPE_ASCII] matches a backslash, a double quote, or any
    character outside the range from space to tilde. *)
Definition needs_escape (c : N) : bool :=
  (c =? 92) || (c =? 34) || negb ((32 <=? c) && (c <=? 126)).

(** [ESCAPE_DCT]: the short escapes; the other control characters are
    in the table as [\u00XX], which [u_escape] produces as well. *)
Definition escape_dct (c : N) : option pystr :=
  if c =? 92 then Some [92; 92]
  else if c =? 34 then Some [92; 34]
  else if c =? 8 then Some [92; 98]
  else if c =? 12 then Some [92; 102]
  else if c =? 10 then Some [92; 110]
  else if c =? 13 then Some [92; 114]
  else if c =? 9 then Some [92; 116]
  else if c <? 32 then Some (u_escape c)
  else None.

(** The [replace] callback of [encode_basestring_ascii]. *)
Definition replace (c : N) : pystr :=
  match escape_dct c with
  | Some e => e
  | None =>
      if c <? 0x10000 then u_escape c
      else
        let n := c - 0x10000 in
        let s1 := N.lor 0xd800 (N.land (N.shiftr n 10) 0x3ff) in
        let s2 := N.lor 0xdc00 (N.land n 0x3ff) in
        u_escape s1 ++ u_escape s2
  end.

Definition escape_char (c : N) : pystr :=
  if needs_escape c then replace c else [c].

(** The escaped characters of a string, without the enclosing quotes. *)
Definition escape_body (s : pystr) : pystr := concat (map escape_char s).

Definition encode_basestring_ascii (s : pystr) : pystr :=
  34 :: escape_body s ++ [34].

Definition encode_atom (a : atom) : pystr :=
  match a with
  | AInt z => int_repr z
  | AStr s => encode_basestring_ascii s
  end.

(** [newline_indent]: a line feed and [4 * level] spaces. *)
Definition newline_indent (level : nat) : pystr :=
  10 :: repeat 32 (4 * level)%nat.

(** The loop of [_iterencode_dict] and [_iterencode_list]: the first
    chunk is emitted as it is, every later one after the separator. *)
Fixpoint join_chunks (first : bool) (separator : pystr) (chunks : list pystr) : pystr :=
  match chunks with
  | [] => []
  | c :: rest =>
      (if first then c else separator ++ c) ++ join_chunks false separator rest
  end.

(** [_iterencode_dict(dct, level)] with string keys and atomic values;
    the key separator is a colon and a space, the item separator a
    comma. *)
Definition iterencode_dict (level : nat) (dct : list (pystr * atom)) : pystr :=
  match dct with
  | [] => [123; 125]
  | _ =>
      [123] ++ newline_indent (S level)
      ++ join_chunks true (44 :: newline_indent (S level))
           (map (fun kv => encode_basestring_ascii (fst kv) ++ [58; 32] ++ encode_atom (snd kv)) dct)
      ++ newline_indent level ++ [125]
  end.

(** [_iterencode_list(lst, level)] for a list of dicts. *)
Definition iterencode_list (level : nat) (lst : list (list (pystr * atom))) : pystr :=
  match lst with
  | [] => [91; 93]
  | _ =>
      [91] ++ newline_indent (S level)
      ++ join_chunks true (44 :: newline_indent (S level))
           (map (iterencode_dict (S level)) lst)
      ++ newline_indent level ++ [93]
  end.

(** The text [json.dump(task_list, file, indent = 4)] writes. *)
Definition json_dump (task_list : list task) : pystr :=
  iterencode_list 0 (map task_items task_list).
End Encoder.

(** ** [json.load(file)]

    The value [json.load] returns.  A float is kept as the literal that
    [parse_float] receives; no operation of the store interprets it. *)

#[warnings="-register-all"]
Inductive json : Type :=
| JNull
| JBool (b : bool)
| JInt (z : Z)
| JFloat (literal : pystr)
| JStr (s : pystr)
| JList (l : list json)
| JDict (d : list (pystr * json)).

Section Scanner.
Local Open Scope N_scope.

(** [WHITESPACE_STR]: space, tab, line feed, carriage return. *)
Definition is_ws (c : N) : bool :=
  (c =? 32) || (c =? 9) || (c =? 10) || (c =? 13).

(** [WHITESPACE.match(s, end).end()], on the rest of the input. *)
Fixpoint skip_ws (s : pystr) : pystr :=
  match s with
  | c :: r => if is_ws c then skip_ws r else s
  | [] => []
  end.

Definition is_digit (c : N) : bool := (48 <=? c) && (c <=? 57).

(** Value of a hexadecimal digit, upper or lower case. *)
Definition hex_value (c : N) : option N :=
  if is_digit c then Some (c - 48)
  else if (97 <=? c) && (c <=? 102) then Some (c - 87)
  else if (65 <=? c) && (c <=? 70) then Some (c - 55)
  else None.

(** [_decode_uXXXX]: the four hexadecimal digits after the u. *)
Definition decode_uXXXX (a b c d : N) : option N :=
  match hex_value a, hex_value b, hex_value c, hex_value d with
  | Some x, Some y, Some z, Some w => Some (4096 * x + 256 * y + 16 * z + w)
  | _, _, _, _ => None
  end.

(** [BACKSLASH]: the one-character escapes. *)
Definition backslash (esc : N) : option N :=
  if esc =? 34 then Some 34
  else if esc =? 92 then Some 92
  else if esc =? 47 then Some 47
  else if esc =? 98 then Some 8
  else if esc =? 102 then Some 12
  else if esc =? 110 then Some 10
  else if esc =? 114 then Some 13
  else if esc =? 116 then Some 9
  else None.

(** The second half of a surrogate pair: [s[end:end + 2]] is a
    backslash and a u, and the escape decodes to a low surrogate.
    [Some None] is an invalid escape (the scan fails), [Some (Some _)]
    a found low surrogate and the input after it, [None] no pair. *)
Definition second_escape (s : pystr) : option (option (N * pystr)) :=
  match s with
  | b :: u :: r =>
      if (b =? 92) && (u =? 117) then
        match r with
        | x1 :: x2 :: x3 :: x4 :: r' =>
            match decode_uXXXX x1 x2 x3 x4 with
            | Some uni2 =>
                if is_low_surrogate uni2 then Some (Some (uni2, r')) else None
            | None => Some None
            end
        | _ => Some None
        end
      else None
  | _ => None
  end.

(** [scanstring(s, end, strict = True)], from the character after the
    opening quote: the decoded string and the input after the closing
    quote; [None] is a [JSONDecodeError]. *)
Fixpoint scanstring (fuel : nat) (s : pystr) : option (pystr * pystr) :=
  match fuel with
  | O => None
  | S fuel =>
      match s with
      | [] => None
      | c :: r =>
          if c =? 34 then Some ([], r)
          else if c =? 92 then
            match r with
            | [] => None
            | esc :: r1 =>
                if esc =? 117 then
                  match r1 with
                  | x1 :: x2 :: x3 :: x4 :: r2 =>
                      match decode_uXXXX x1 x2 x3 x4 with
                      | None => None
                      | Some uni =>
                          if is_high_surrogate uni then
                            match second_escape r2 with
                            | Some None => None
                            | Some (Some (uni2, r3)) =>
                                let char := 0x10000 + N.lor (N.shiftl (uni - 0xd800) 10) (uni2 - 0xdc00) in
                                '(chunks, rest) ← scanstring fuel r3;
                                Some (char :: chunks, rest)
                            | None =>
                                '(chunks, rest) ← scanstring fuel r2;
                                Some (uni :: chunks, rest)
                            end
                          else
                            '(chunks, rest) ← scanstring fuel r2;
                            Some (uni :: chunks, rest)
                      end
                  | _ => None
                  end
                else
                  match backslash esc with
                  | Some char =>
                      '(chunks, rest) ← scanstring fuel r1;
                      Some (char :: chunks, rest)
                  | None => None
                  end
            end
          else if c <? 32 then None
          else
            '(chunks, rest) ← scanstring fuel r;
            Some (c :: chunks, rest)
      end
  end.

(** The longest prefix of ASCII digits, and the rest. *)
Fixpoint span_digits (s : pystr) : pystr * pystr :=
  match s with
  | c :: r =>
      if is_digit c then let '(ds, rest) := span_digits r in (c :: ds, rest)
      else ([], s)
  | [] => ([], [])
  end.

Definition digit_of_char (c : N) : DecimalFacts.digits :=
  if c =? 48 then d0 else if c =? 49 then d1 else if c =? 50 then d2
  else if c =? 51 then d3 else if c =? 52 then d4 else if c =? 53 then d5
  else if c =? 54 then d6 else if c =? 55 then d7 else if c =? 56 then d8
  else d9.

(** [int(text)] for a run of ASCII digits. *)
Definition int_of_digits (ds : pystr) : Z :=
  Z.of_uint (DecimalFacts.of_list (map digit_of_char ds)).

(** The optional fraction of [NUMBER_RE]: a dot and at least one digit. *)
Definition match_frac (s : pystr) : pystr * pystr :=
  match s with
  | dot :: c :: r =>
      if (dot =? 46) && is_digit c
      then let '(ds, rest) := span_digits (c :: r) in (dot :: ds, rest)
      else ([], s)
  | _ => ([], s)
  end.

(** The optional exponent of [NUMBER_RE]: e or E, an optional sign, and
    at least one digit. *)
Definition match_exp (s : pystr) : pystr * pystr :=
  match s with
  | e :: r =>
      if (e =? 101) || (e =? 69) then
        match r with
        | c :: r' =>
            if is_digit c
            then let '(ds, rest) := span_digits r in (e :: ds, rest)
            else if (c =? 45) || (c =? 43) then
              match r' with
              | c' :: _ =>
                  if is_digit c'
                  then let '(ds, rest) := span_digits r' in (e :: c :: ds, rest)
                  else ([], s)
              | [] => ([], s)
              end
            else ([], s)
        | [] => ([], s)
        end
      else ([], s)
  | [] => ([], s)
  end.

(** [NUMBER_RE.match] and the conversion of its groups: an optional
    minus sign, then a single zero or a run of digits that starts with
    a non-zero digit, then the optional fraction and exponent. *)
Definition match_number (s : pystr) : option (json * pystr) :=
  let '(sign, s1) :=
    match s with
    | c :: r => if c =? 45 then ([45], r) else ([], s)
    | [] => ([], s)
    end in
  match s1 with
  | c :: r =>
      if is_digit c then
        let '(integer, r1) := if c =? 48 then ([48], r) else span_digits s1 in
        let '(frac, r2) := match_frac r1 in
        let '(exp, r3) := match_exp r2 in
        match frac, exp with
        | [], [] =>
            Some (JInt (match sign with
                        | [] => int_of_digits integer
                        | _ => - int_of_digits integer
                        end), r3)
        | _, _ => Some (JFloat (sign ++ integer ++ frac ++ exp), r3)
        end
      else None
  | [] => None
  end.

(** [string[idx:idx + len(p)] == p], and the input after the prefix. *)
Fixpoint strip_prefix (p s : pystr) : option pystr :=
  match p, s with
  | [], _ => Some s
  | a :: p', b :: s' => if a =? b then strip_prefix p' s' else None
  | _ :: _, [] => None
  end.

(** [d[k] = v] on a dict kept in insertion order. *)
Fixpoint dict_set (k : pystr) (v : json) (d : list (pystr * json)) : list (pystr * json) :=
  match d with
  | [] => [(k, v)]
  | (k', v') :: d' =>
      if str_eqb k k' then (k', v) :: d' else (k', v') :: dict_set k v d'
  end.

(** [dict(pairs)]. *)
Definition dict_of_pairs (pairs : list (pystr * json)) : list (pystr * json) :=
  fold_left (fun d kv => dict_set (fst kv) (snd kv) d) pairs [].

Section Containers.
(** [scan_once] at the nesting depth below. *)
Variable scan_once : pystr -> option (json * pystr).

(** The loop of [JSONArray], from the first value on.  Every turn
    consumes input, so [fuel] counts turns and the length of the
    input bounds it. *)
Fixpoint JSONArray_loop (fuel : nat) (s : pystr) : option (list json * pystr) :=
  match fuel with
  | O => None
  | S fuel =>
      '(value, s1) ← scan_once s;
      match skip_ws s1 with
      | c :: s2 =>
          if c =? 93 then Some ([value], s2)
          else if c =? 44 then
            '(values, rest) ← JSONArray_loop fuel (skip_ws s2);
            Some (value :: values, rest)
          else None
      | [] => None
      end
  end.

(** [JSONArray], from the character after the opening bracket. *)
Definition JSONArray (s : pystr) : option (list json * pystr) :=
  match skip_ws s with
  | c :: s1 =>
      if c =? 93 then Some ([], s1)
      else JSONArray_loop (length s) (skip_ws s)
  | [] => None
  end.

(** The loop of [JSONObject], from the character after the opening
    quote of a key. *)
Fixpoint JSONObject_loop (fuel : nat) (s : pystr) : option (list (pystr * json) * pystr) :=
  match fuel with
  | O => None
  | S fuel =>
      '(key, s1) ← scanstring (length s) s;
      match skip_ws s1 with
      | colon :: s2 =>
          if colon =? 58 then
            '(value, s3) ← scan_once (skip_ws s2);
            match skip_ws s3 with
            | c :: s4 =>
                if c =? 125 then Some ([(key, value)], s4)
                else if c =? 44 then
                  match skip_ws s4 with
                  | q :: s5 =>
                      if q =? 34 then
                        '(pairs, rest) ← JSONObject_loop fuel s5;
                        Some ((key, value) :: pairs, rest)
                      else None
                  | [] => None
                  end
                else None
            | [] => None
            end
          else None
      | [] => None
      end
  end.

(** [JSONObject], from the character after the opening brace. *)
Definition JSONObject (s : pystr) : option (list (pystr * json) * pystr) :=
  match skip_ws s with
  | c :: s1 =>
      if c =? 125 then Some ([], s1)
      else if c =? 34 then
        '(pairs, rest) ← JSONObject_loop (length s) s1;
        Some (dict_of_pairs pairs, rest)
      else None
  | [] => None
  end.
End Containers.

(** [scan_once(string, idx)]; [depth] bounds the nesting of arrays and
    objects. *)
Fixpoint scan_once (depth : nat) (s : pystr) : option (json * pystr) :=
  match depth with
  | O => None
  | S depth =>
      match s with
      | [] => None
      | nextchar :: r =>
          if nextchar =? 34 then
            '(str, rest) ← scanstring (length r) r; Some (JStr str, rest)
          else if nextchar =? 123 then
            '(d, rest) ← JSONObject (scan_once depth) r; Some (JDict d, rest)
          else if nextchar =? 91 then
            '(l, rest) ← JSONArray (scan_once depth) r; Some (JList l, rest)
          else
            match strip_prefix (lit "null") s, strip_prefix (lit "true") s,
                  strip_prefix (lit "false") s with
            | Some rest, _, _ => Some (JNull, rest)
            | _, Some rest, _ => Some (JBool true, rest)
            | _, _, Some rest => Some (JBool false, rest)
            | None, None, None =>
                match match_number s with
                | Some res => Some res
                | None =>
                    match strip_prefix (lit "NaN") s, strip_prefix (lit "Infinity") s,
                          strip_prefix (lit "-Infinity") s with
                    | Some rest, _, _ => Some (JFloat (lit "NaN"), rest)
                    | _, Some rest, _ => Some (JFloat (lit "Infinity"), rest)
                    | _, _, Some rest => Some (JFloat (lit "-Infinity"), rest)
                    | None, None, None => None
                    end
                end
            end
      end
  end.

(** [json.loads(s)]: no byte order mark, optional whitespace, one
    value, optional whitespace, end of input.  [None] is a
    [JSONDecodeError]. *)
Definition json_loads (s : pystr) : option json :=
  if bool_decide (head s = Some 0xfeff) then None
  else
    '(obj, rest) ← scan_once (S (length s)) (skip_ws s);
    match skip_ws rest with
    | [] => Some obj
    | _ :: _ => None
    end.
End Scanner.

(** The typed view of a decoded value: a dict with exactly the five keys
    of [add_task], in its order, an [int] id and [str] fields. *)
Definition as_task (v : json) : option task :=
  match v with
  | JDict [(k1, JInt i); (k2, JStr t); (k3, JStr d); (k4, JStr dd); (k5, JStr p)] =>
      if str_eqb k1 (lit "id") && str_eqb k2 (lit "title")
         && str_eqb k3 (lit "description") && str_eqb k4 (lit "due_date")
         && str_eqb k5 (lit "priority")
      then Some (mk_task i t d dd p)
      else None
  | _ => None
  end.

Definition as_task_list (v : json) : option (list task) :=
  match v with
  | JList l => mapM as_task l
  | _ => None
  end.

(** ** [datetime.strptime(due_date, "%Y-%m-%d")] *)

Section Strptime.
Local Open Scope N_scope.

(** The code points of the digit zero of every decimal-digit run of
    Unicode 14.0 (general category Nd), the version of CPython 3.11;
    each is followed by the digits one to nine.  The regular
    expression class [\d] of a [str] pattern matches exactly these
    characters, and [int] reads them by their decimal value. *)
Definition decimal_zeros : list N :=
  [48; 1632; 1776; 1984; 2406; 2534; 2662; 2790; 2918; 3046; 3174; 3302;
   3430; 3558; 3664; 3792; 3872; 4160; 4240; 6112; 6160; 6470; 6608; 6784;
   6800; 6992; 7088; 7232; 7248; 42528; 43216; 43264; 43472; 43504; 43600;
   44016; 65296; 66720; 68912; 69734; 69872; 69942; 70096; 70384; 70736;
   70864; 71248; 71360; 71472; 71904; 72016; 72784; 73040; 73120; 92768;
   92864; 93008; 120782; 120792; 120802; 120812; 120822; 123200; 123632;
   125264; 130032].

Definition decimal_value (c : N) : option N :=
  match List.find (fun z => (z <=? c) && (c <? z + 10)) decimal_zeros with
  | Some z => Some (c - z)
  | None => None
  end.

(** A regular expression matcher returns its matches in the order in
    which backtracking tries them: the value read and the input left. *)

(** [\d] *)
Definition re_d (s : pystr) : list (N * pystr) :=
  match s with
  | c :: r => match decimal_value c with Some v => [(v, r)] | None => [] end
  | [] => []
  end.

(** A class of ASCII digits, from [lo] to [hi]. *)
Definition re_range (lo hi : N) (s : pystr) : list (N * pystr) :=
  match s with
  | c :: r => if (48 + lo <=? c) && (c <=? 48 + hi) then [(c - 48, r)] else []
  | [] => []
  end.

(** A literal character. *)
Definition re_char (x : N) (s : pystr) : list pystr :=
  match s with
  | c :: r => if c =? x then [r] else []
  | [] => []
  end.

(** The group Y: four [\d]. *)
Definition re_group_Y (s : pystr) : list (N * pystr) :=
  '(a, s1) ← re_d s; '(b, s2) ← re_d s1; '(c, s3) ← re_d s2; '(d, s4) ← re_d s3;
  [(1000 * a + 100 * b + 10 * c + d, s4)].

(** The group m: [1[0-2]|0[1-9]|[1-9]]. *)
Definition re_group_m (s : pystr) : list (N * pystr) :=
  ('(a, s1) ← re_range 1 1 s; '(b, s2) ← re_range 0 2 s1; [(10 * a + b, s2)])
  ++ ('(_, s1) ← re_range 0 0 s; '(b, s2) ← re_range 1 9 s1; [(b, s2)])
  ++ re_range 1 9 s.

(** The group d: [3[0-1]|[1-2]\d|0[1-9]|[1-9]| [1-9]]. *)
Definition re_group_d (s : pystr) : list (N * pystr) :=
  ('(a, s1) ← re_range 3 3 s; '(b, s2) ← re_range 0 1 s1; [(10 * a + b, s2)])
  ++ ('(a, s1) ← re_range 1 2 s; '(b, s2) ← re_d s1; [(10 * a + b, s2)])
  ++ ('(_, s1) ← re_range 0 0 s; '(b, s2) ← re_range 1 9 s1; [(b, s2)])
  ++ re_range 1 9 s
  ++ (s1 ← re_char 32 s; re_range 1 9 s1).

(** [format_regex.match(data_string)]: the groups of the first match
    and the input after it ([found.end()]). *)
Definition format_regex_match (data_string : pystr) : option (N * N * N * pystr) :=
  head ('(y, s1) ← re_group_Y data_string;
        s2 ← re_char 45 s1;
        '(m, s3) ← re_group_m s2;
        s4 ← re_char 45 s3;
        '(d, s5) ← re_group_d s4;
        [(y, m, d, s5)]).

Definition is_leap (year : N) : bool :=
  (year mod 4 =? 0) && (negb (year mod 100 =? 0) || (year mod 400 =? 0)).

Definition days_in_month (year month : N) : N :=
  if (month =? 2) && is_leap year then 29
  else nth (N.to_nat month) [0; 31; 28; 31; 30; 31; 30; 31; 31; 30; 31; 30; 31] 0.

(** The ways the call fails; each is a [ValueError]. *)
Inductive strptime_error : Type :=
| does_not_match
| unconverted_data_remains
| year_out_of_range
| day_out_of_range.

Definition strptime (data_string : pystr) : strptime_error + (N * N * N) :=
  match format_regex_match data_string with
  | None => inl does_not_match
  | Some (year, month, day, rest) =>
      match rest with
      | _ :: _ => inl unconverted_data_remains
      | [] =>
          if year <? 1 then inl year_out_of_range
          else if days_in_month year month <? day then inl day_out_of_range
          else inr (year, month, day)
      end
  end.
End Strptime.

(** ** The store and the world it runs in *)

(** An object of class [Task]. *)
Record Task : Type := mk_Task {
  json_file : string;
  task_list : list task
}.

(** What the console is asked to print: a markup string or a table. *)
Record column : Type := mk_column {
  header : string;
  justify : string;
  style : string;
  no_wrap : bool
}.

Inductive renderable : Type :=
| Markup (text : string)
| Table (title : string) (columns : list column) (rows : list (list pystr)).

(** The store object [task_manager], the files by path, and the objects the
    console has printed so far, each as it was handed to [console.print]:
    the markup text or the table with its cells, not the characters the
    console library draws for them. *)
Record state : Type := mk_state {
  task_manager : Task;
  files : gmap string pystr;
  console : list renderable
}.

(** The exceptions of the program: the [ValueError] of [add_task], and
    the [MarkupError] of the console library, which is not a
    [ValueError]. *)
Inductive exn : Type :=
| ValueError (msg : string)
| MarkupError.

Inductive outcome (A : Type) : Type :=
| Return (a : A)
| Raise (e : exn).
Arguments Return {A} a.
Arguments Raise {A} e.

(** A computation runs from a state to an outcome and the state it
    leaves; a raised exception keeps the state reached when it was
    raised. *)
Definition M (A : Type) : Type := state -> outcome A * state.

Definition ret {A} (a : A) : M A := fun st => (Return a, st).
Definition raise {A} (e : exn) : M A := fun st => (Raise e, st).
Definition bind {A B} (m : M A) (k : A -> M B) : M B :=
  fun st =>
    match m st with
    | (Return a, st') => k a st'
    | (Raise e, st') => (Raise e, st')
    end.
Definition try_except {A} (m : M A) (handler : exn -> M A) : M A :=
  fun st =>
    match m st with
    | (Return a, st') => (Return a, st')
    | (Raise e, st') => handler e st'
    end.

Notation "x <~ m ;; k" := (bind m (fun x => k))
  (at level 63, m at level 62, right associativity).
Notation "m ;;; k" := (bind m (fun _ => k))
  (at level 63, right associativity).

Definition get_self : M Task := fun st => (Return (task_manager st), st).

(** [self.task_list.append(task)]. *)
Definition append (t : task) : M unit :=
  fun st =>
    (Return tt,
     mk_state (mk_Task (json_file (task_manager st)) (task_list (task_manager st) ++ [t]))
              (files st) (console st)).

(** [open(path, "w")] followed by writing [text]. *)
Definition write_file (path : string) (text : pystr) : M unit :=
  fun st => (Return tt, mk_state (task_manager st) (<[path := text]> (files st)) (console st)).

(** [console.print(r)] for an object the console library renders. *)
Definition print (r : renderable) : M unit :=
  fun st => (Return tt, mk_state (task_manager st) (files st) (console st ++ [r])).

(** What [load_from_json] can end in besides a task list:
    [json.load] raises, or the file decodes to a value that is not a
    list of task dicts, which this typed embedding does not follow. *)
Inductive load_error : Type :=
| JSONDecodeError
| UntypedValue (v : json).

(** [Task.load_from_json]: a missing file is the empty list. *)
Definition load_from_json (json_file : string) (fs : gmap string pystr)
  : load_error + list task :=
  match fs !! json_file with
  | None => inr []
  | Some text =>
      match json_loads text with
      | None => inl JSONDecodeError
      | Some v =>
          match as_task_list v with
          | Some l => inr l
          | None => inl (UntypedValue v)
          end
      end
  end.

(** [Task.__init__]. *)
Definition Task_init (json_file : string) (fs : gmap string pystr) : load_error + Task :=
  match load_from_json json_file fs with
  | inl e => inl e
  | inr l => inr (mk_Task json_file l)
  end.

(** [Task.save_to_json]. *)
Definition save_to_json : M unit :=
  self <~ get_self ;;
  write_file (json_file self) (json_dump (task_list self)).

(** [max(ids, default = default)] on integers: the default only when
    there is nothing to compare. *)
Definition py_max (ids : list Z) (default : Z) : Z :=
  match ids with
  | [] => default
  | x :: rest => fold_left Z.max rest x
  end.

Definition msg_title : string := "Title can't be empty!".
Definition msg_priority : string := "Priority must be 'Low', 'Medium', or 'High'".
Definition msg_due_date : string := "Due date must be in the following format: YYYY-MM-DD".

(** [Task.add_task].  The method has no return statement: a call that
    does not raise evaluates to Python's None, here [None]. *)
Definition add_task (title description due_date priority : pystr) : M (option task) :=
  (if negb (truthy title) then raise (ValueError msg_title) else ret tt) ;;;
  (if negb (str_in priority [lit "Low"; lit "Medium"; lit "High"])
   then raise (ValueError msg_priority) else ret tt) ;;;
  (match strptime due_date with
   | inr _ => ret tt
   | inl _ => raise (ValueError msg_due_date)
   end) ;;;
  self <~ get_self ;;
  let next_id := (py_max (map task_id (task_list self)) 0 + 1)%Z in
  let task := mk_task next_id title description due_date priority in
  append task ;;;
  save_to_json ;;;
  ret None.

(** The [add] command, after the option parser has produced its four
    arguments.  The handler is [except ValueError]: any other exception
    goes on to the caller. *)
Definition add (title description due_date priority : pystr) : M unit :=
  try_except
    (add_task title description due_date priority ;;;
     print (Markup "[green]Task successfully added![/green]"))
    (fun e => match e with
              | ValueError msg => print (Markup ("[red]Error: " +:+ msg +:+ "[/red]"))
              | MarkupError => raise MarkupError
              end).

Definition view_columns : list column :=
  [ mk_column "ID" "right" "cyan" true;
    mk_column "Title" "left" "magenta" false;
    mk_column "Description" "left" "white" false;
    mk_column "Priority" "left" "green" false;
    mk_column "Due Date" "right" "yellow" false ].

Definition view_row (t : task) : list pystr :=
  [int_repr (task_id t); task_title t; task_description t; task_priority t; task_due_date t].

(** The [view] command.  The cells of a row are [str] objects, and the
    console library reads each of them as markup when the table is
    printed: a stored title that is a closing tag with no opening one
    makes [console.print(table)] raise [MarkupError] before anything is
    shown, and a title with well-formed tags is drawn without them.  The markup reader belongs to
    the library, not to the source: [renders] stands for its verdict on
    the rows of the table, and what is said of [view] holds for every
    [renders]. *)
Definition view (renders : list (list pystr) -> bool) : M unit :=
  self <~ get_self ;;
  match task_list self with
  | [] => print (Markup "[yellow]No current tasks.[/yellow]")
  | _ =>
      let rows := map view_row (task_list self) in
      if renders rows
      then print (Table "Tasks" view_columns rows)
      else raise MarkupError
  end.

(** ** The vocabulary of the specification *)

(** The three validation failures; in the source each is a [ValueError]
    with its own message. *)
Definition InvalidTitle : exn := ValueError msg_title.
Definition InvalidPriority : exn := ValueError msg_priority.
Definition InvalidDueDate : exn := ValueError msg_due_date.

(** The input passes the three checks of [add_task]. *)
Definition valid_input (title due_date priority : pystr) : bool :=
  truthy title
  && str_in priority [lit "Low"; lit "Medium"; lit "High"]
  && match strptime due_date with inr _ => true | inl _ => false end.

(** The ids of the collection. *)
Definition ids_of (st : state) : list Z := map task_id (task_list (task_manager st)).

(** The record a successful [add_task] creates in state [st]. *)
Definition new_record (st : state) (title description due_date priority : pystr) : task :=
  mk_task (py_max (ids_of st) 0 + 1) title description due_date priority.

(** The state a successful [add_task] leaves: the record appended, the
    file of the store rewritten with the whole collection, nothing else
    touched. *)
Definition added (st : state) (title description due_date priority : pystr) : state :=
  let l := task_list (task_manager st) ++ [new_record st title description due_date priority] in
  mk_state (mk_Task (json_file (task_manager st)) l)
           (<[json_file (task_manager st) := json_dump l]> (files st))
           (console st).

(** The state a process starts in: the store initialised from the file
    system, nothing printed yet. *)
Definition start (json_file : string) (fs : gmap string pystr) : load_error + state :=
  match Task_init json_file fs with
  | inl e => inl e
  | inr t => inr (mk_state t fs [])
  end.

(** A record disappears out of band: the record at position [i] is
    deleted from the collection and from the persisted file, as after
    editing the file by hand and starting the tool again. *)
Definition remove_out_of_band (i : nat) (st : state) : state :=
  let l := delete i (task_list (task_manager st)) in
  mk_state (mk_Task (json_file (task_manager st)) l)
           (<[json_file (task_manager st) := json_dump l]> (files st))
           (console st).

(** What happens to a store over time. *)
Inductive event : Type :=
| Add (title description due_date priority : pystr)
| RemoveOutOfBand (i : nat).

Definition step (ev : event) (st : state) : state :=
  match ev with
  | Add t d dd p => snd (add_task t d dd p st)
  | RemoveOutOfBand i => remove_out_of_band i st
  end.

(** The ids given to the records of the successful [add_task] calls of a
    run, in call order. *)
Fixpoint ids_assigned (evs : list event) (st : state) : list Z :=
  match evs with
  | [] => []
  | ev :: evs' =>
      match ev with
      | Add t d dd p =>
          match fst (add_task t d dd p st) with
          | Return _ => [task_id (new_record st t d dd p)]
          | Raise _ => []
          end
      | RemoveOutOfBand _ => []
      end ++ ids_assigned evs' (step ev st)
  end.

(** An out-of-band removal that leaves the largest id in place. *)
Definition keeps_max (ev : event) (st : state) : Prop :=
  match ev with
  | Add _ _ _ _ => True
  | RemoveOutOfBand i => py_max (ids_of (remove_out_of_band i st)) 0 = py_max (ids_of st) 0
  end.

Fixpoint keeps_max_all (evs : list event) (st : state) : Prop :=
  match evs with
  | [] => True
  | ev :: evs' => keeps_max ev st /\ keeps_max_all evs' (step ev st)
  end.

(** No high surrogate directly followed by a low surrogate. *)
Fixpoint no_surrogate_pair (s : pystr) : bool :=
  match s with
  | a :: r =>
      match r with
      | b :: _ => negb (is_high_surrogate a && is_low_surrogate b)
      | [] => true
      end && no_surrogate_pair r
  | [] => true
  end.

(** A string [json.load] gives back as [json.dump] was given it. *)
Definition plain_str (s : pystr) : bool :=
  wf_str s && no_surrogate_pair s.

Definition plain_task (t : task) : bool :=
  plain_str (task_title t) && plain_str (task_description t)
  && plain_str (task_due_date t) && plain_str (task_priority t).

(** The reading of the date format as the specification words it: four
    ASCII digits, a hyphen, two digits, a hyphen, two digits, naming a
    day of the calendar [datetime] supports (years 1 to 9999). *)
Definition is_YYYY_MM_DD (s : pystr) : bool :=
  match s with
  | [y1; y2; y3; y4; h1; m1; m2; h2; x1; x2] =>
      forallb is_digit [y1; y2; y3; y4; m1; m2; x1; x2]
      && (h1 =? 45)%N && (h2 =? 45)%N
      && (let year := (1000 * (y1 - 48) + 100 * (y2 - 48) + 10 * (y3 - 48) + (y4 - 48))%N in
          let month := (10 * (m1 - 48) + (m2 - 48))%N in
          let day := (10 * (x1 - 48) + (x2 - 48))%N in
          (1 <=? year)%N && (1 <=? month)%N && (month <=? 12)%N
          && (1 <=? day)%N && (day <=? days_in_month year month)%N)
  | _ => false
  end.

(** * Properties *)

(** ** How [add_task] runs *)

Lemma add_task_unfold st t d dd p :
  add_task t d dd p st =
    if negb (truthy t) then (Raise InvalidTitle, st)
    else if negb (str_in p [lit "Low"; lit "Medium"; lit "High"])
    then (Raise InvalidPriority, st)
    else match strptime dd with
         | inl _ => (Raise InvalidDueDate, st)
         | inr _ => (Return None, added st t d dd p)
         end.
Proof.
  unfold add_task, bind, raise, ret.
  destruct (truthy t); cbn [negb]; [|reflexivity].
  destruct (str_in p [lit "Low"; lit "Medium"; lit "High"]); cbn [negb]; [|reflexivity].
  destruct (strptime dd); reflexivity.
Qed.

Lemma add_task_valid st t d dd p :
  valid_input t dd p = true ->
  add_task t d dd p st = (Return None, added st t d dd p).
Proof.
  unfold valid_input. intros H.
  apply andb_prop in H as [H Hd]. apply andb_prop in H as [Ht Hp].
  rewrite add_task_unfold, Ht, Hp. cbn [negb].
  destruct (strptime dd); [discriminate|reflexivity].
Qed.

Lemma add_task_invalid st t d dd p :
  valid_input t dd p = false ->
  exists e, add_task t d dd p st = (Raise e, st)
            /\ (e = InvalidTitle \/ e = InvalidPriority \/ e = InvalidDueDate).
Proof.
  unfold valid_input. intros H. rewrite add_task_unfold.
  destruct (truthy t); cbn [negb andb] in *; [|eauto].
  destruct (str_in p [lit "Low"; lit "Medium"; lit "High"]); cbn [negb andb] in *; [|eauto 6].
  destruct (strptime dd); [eauto 6|discriminate].
Qed.

(** Every failure of [add_task] is a [ValueError] with one of the three
    messages. *)
Lemma add_task_invalid_msg st t d dd p :
  valid_input t dd p = false ->
  exists msg, add_task t d dd p st = (Raise (ValueError msg), st)
              /\ In msg [msg_title; msg_priority; msg_due_date].
Proof.
  intros Hv. destruct (add_task_invalid st t d dd p Hv) as (e & He & [H|[H|H]]);
    rewrite H in He; eexists; (split; [exact He|]); cbn; auto.
Qed.

Lemma add_task_returns st t d dd p r st' :
  add_task t d dd p st = (Return r, st') ->
  valid_input t dd p = true /\ r = None /\ st' = added st t d dd p.
Proof.
  destruct (valid_input t dd p) eqn:Hv.
  - rewrite (add_task_valid _ _ _ _ _ Hv). intros [= <- <-]. auto.
  - destruct (add_task_invalid st t d dd p Hv) as (e & -> & _). discriminate.
Qed.

Lemma add_task_raises st t d dd p e st' :
  add_task t d dd p st = (Raise e, st') ->
  valid_input t dd p = false /\ st' = st.
Proof.
  destruct (valid_input t dd p) eqn:Hv.
  - rewrite (add_task_valid _ _ _ _ _ Hv). discriminate.
  - destruct (add_task_invalid st t d dd p Hv) as (e' & -> & _).
    intros [= _ <-]. auto.
Qed.

Lemma str_in_priorities p :
  str_in p [lit "Low"; lit "Medium"; lit "High"] = true
  <-> p = lit "Low" \/ p = lit "Medium" \/ p = lit "High".
Proof.
  unfold str_in, str_eqb.
  repeat case_bool_decide; split; intros; try tauto; discriminate.
Qed.

Lemma truthy_nonempty (s : pystr) : truthy s = true <-> s <> [].
Proof. destruct s; simpl; split; congruence. Qed.

Lemma py_max_nil d : py_max [] d = d.
Proof. reflexivity. Qed.

Lemma fold_left_max_spec (l : list Z) (x : Z) :
  (fold_left Z.max l x = x \/ In (fold_left Z.max l x) l)
  /\ (x <= fold_left Z.max l x)%Z
  /\ Forall (fun i => (i <= fold_left Z.max l x)%Z) l.
Proof.
  revert x. induction l as [|y l IH]; intros x; simpl.
  - split; [auto|split; [lia|constructor]].
  - destruct (IH (Z.max x y)) as (Hin & Hle & Hall).
    split; [|split].
    + destruct Hin as [Heq|Hin]; [|auto].
      rewrite Heq. destruct (Z.max_spec x y) as [[_ ->]|[_ ->]]; auto.
    + lia.
    + constructor; [lia|exact Hall].
Qed.

(** On a non-empty list [py_max] is the maximum, whatever the default. *)
Lemma py_max_spec (ids : list Z) (d : Z) :
  ids <> [] ->
  In (py_max ids d) ids /\ Forall (fun i => (i <= py_max ids d)%Z) ids.
Proof.
  destruct ids as [|x l]; [congruence|intros _]. simpl.
  destruct (fold_left_max_spec l x) as (Hin & Hle & Hall).
  split; [destruct Hin as [->|?]; auto|constructor; assumption].
Qed.

Lemma fold_left_max_app (l : list Z) (x y : Z) :
  fold_left Z.max (l ++ [y]) x = Z.max (fold_left Z.max l x) y.
Proof. rewrite fold_left_app. reflexivity. Qed.

(** After a record with the next id is appended, that id is the maximum. *)
Lemma py_max_snoc (ids : list Z) :
  py_max (ids ++ [py_max ids 0 + 1]%Z) 0 = (py_max ids 0 + 1)%Z.
Proof.
  destruct ids as [|x l]; [reflexivity|].
  cbn [app py_max]. rewrite fold_left_max_app. lia.
Qed.

Lemma ids_of_added st t d dd p :
  ids_of (added st t d dd p) = ids_of st ++ [py_max (ids_of st) 0 + 1]%Z.
Proof. unfold ids_of, added. cbn. rewrite map_app. reflexivity. Qed.

Lemma step_add_valid st t d dd p :
  valid_input t dd p = true -> step (Add t d dd p) st = added st t d dd p.
Proof. intros H. cbn. rewrite add_task_valid by exact H. reflexivity. Qed.

Lemma step_add_invalid st t d dd p :
  valid_input t dd p = false -> step (Add t d dd p) st = st.
Proof.
  intros H. cbn. destruct (add_task_invalid st t d dd p H) as (e & -> & _).
  reflexivity.
Qed.

(** The store a first run finds when there is no file yet. *)
Definition fresh_store : state := mk_state (mk_Task "tasks.json" []) ∅ [].

(** The fixed set of priorities. *)
Definition is_priority (p : pystr) : Prop :=
  p = lit "Low" \/ p = lit "Medium" \/ p = lit "High".

Lemma valid_input_iff t dd p :
  valid_input t dd p = true
  <-> t <> [] /\ is_priority p /\ exists date, strptime dd = inr date.
Proof.
  unfold valid_input, is_priority.
  rewrite !andb_true_iff, truthy_nonempty, str_in_priorities.
  destruct (strptime dd) as [e|date].
  - split; [intros [_ ?]; discriminate|intros (_ & _ & ? & ?); discriminate].
  - split; [intros [[? ?] _]; eauto|intros (? & ? & _); auto].
Qed.

(** Ids given along a run grow strictly, and stay above the largest id
    the run started from, as long as no removal lowers the maximum. *)
Lemma ids_assigned_increasing evs : forall st,
  keeps_max_all evs st ->
  StronglySorted Z.lt (ids_assigned evs st)
  /\ Forall (fun i => (py_max (ids_of st) 0 < i)%Z) (ids_assigned evs st).
Proof.
  induction evs as [|ev evs IH]; intros st Hk; cbn [ids_assigned].
  - split; constructor.
  - destruct Hk as [Hk1 Hk]. destruct (IH _ Hk) as [Hs Hf].
    destruct ev as [t d dd p|i].
    + destruct (valid_input t dd p) eqn:Hv.
      * rewrite add_task_valid by exact Hv. cbn [fst].
        rewrite (step_add_valid st t d dd p Hv) in *.
        rewrite ids_of_added, py_max_snoc in Hf.
        cbn [app new_record task_id]. split.
        -- constructor; [exact Hs|]. eapply Forall_impl; [exact Hf|].
           intros; simpl in *; lia.
        -- constructor; [lia|]. eapply Forall_impl; [exact Hf|].
           intros; simpl in *; lia.
      * destruct (add_task_invalid st t d dd p Hv) as (e & He & _).
        rewrite He. cbn [fst app].
        rewrite (step_add_invalid st t d dd p Hv) in *. auto.
    + cbn [app]. cbn [step] in Hs, Hf. cbn [keeps_max] in Hk1.
      rewrite Hk1 in Hf. auto.
Qed.

(** From an empty collection, [n] valid calls are given the ids 1 to [n]. *)
Lemma ids_assigned_from st (calls : list (pystr * pystr * pystr * pystr)) :
  Forall (fun c => valid_input c.1.1.1 c.1.2 c.2 = true) calls ->
  ids_assigned (map (fun c => Add c.1.1.1 c.1.1.2 c.1.2 c.2) calls) st
  = map (fun k => (py_max (ids_of st) 0 + Z.of_nat k)%Z) (seq 1 (length calls)).
Proof.
  intros H. revert st. induction H as [|c calls Hc _ IH]; intros st; [reflexivity|].
  cbn [map ids_assigned length seq].
  rewrite add_task_valid by exact Hc. cbn [fst app new_record task_id].
  rewrite step_add_valid by exact Hc. rewrite IH.
  rewrite ids_of_added, py_max_snoc. f_equal.
  rewrite <- (seq_shift (length calls) 1), map_map. apply map_ext. intros; lia.
Qed.

(** ** Identifiers *)

(** C1, as the code has it.  A successful [add_task] gives the new record
    the id [max + 1] over the ids in the collection, and 1 when the
    collection is empty; this id is larger than every id in the
    collection.  From an empty collection, [n] successful calls are given
    the ids 1 to [n] in call order.  Along any run of calls and
    out-of-band removals in which no removal lowers the largest id, the
    ids given grow strictly, so none is given twice. *)
Theorem add_task_id_is_max_plus_one :
  (forall st title description due_date priority,
      valid_input title due_date priority = true ->
      let st' := snd (add_task title description due_date priority st) in
      let new_id := task_id (new_record st title description due_date priority) in
      last (task_list (task_manager st'))
        = Some (mk_task new_id title description due_date priority)
      /\ (ids_of st = [] -> new_id = 1%Z)
      /\ (ids_of st <> [] ->
          exists m, In m (ids_of st) /\ Forall (fun i => (i <= m)%Z) (ids_of st)
                    /\ new_id = (m + 1)%Z)
      /\ Forall (fun i => (i < new_id)%Z) (ids_of st))
  /\ (forall st (calls : list (pystr * pystr * pystr * pystr)),
      ids_of st = [] ->
      Forall (fun c => valid_input c.1.1.1 c.1.2 c.2 = true) calls ->
      let evs := map (fun c => Add c.1.1.1 c.1.1.2 c.1.2 c.2) calls in
      ids_assigned evs st = map Z.of_nat (seq 1 (length calls))
      /\ NoDup (ids_assigned evs st))
  /\ (forall st evs,
      keeps_max_all evs st ->
      StronglySorted Z.lt (ids_assigned evs st)
      /\ NoDup (ids_assigned evs st)
      /\ Forall (fun i => ~ In i (ids_of st)) (ids_assigned evs st)).
Proof.
  assert (Hsorted : forall l, StronglySorted Z.lt l -> NoDup l).
  { induction 1 as [|a l _ IH Ha]; constructor; [|exact IH].
    intros Hin. rewrite Forall_forall in Ha. specialize (Ha _ Hin). lia. }
  split; [|split].
  - intros st t d dd p Hv st' new_id. subst st'.
    rewrite add_task_valid by exact Hv. cbn [snd added task_manager task_list].
    rewrite last_snoc. split; [reflexivity|]. subst new_id. cbn [new_record task_id].
    split; [intros ->; reflexivity|]. split.
    + intros Hne. destruct (py_max_spec (ids_of st) 0 Hne) as [Hin Hall]. eauto.
    + destruct (ids_of st) as [|x l] eqn:E; [constructor|].
      destruct (py_max_spec (x :: l) 0) as [_ Hall]; [discriminate|].
      eapply Forall_impl; [exact Hall|]. intros; simpl in *; lia.
  - intros st calls Hnil Hvalid evs. subst evs.
    rewrite ids_assigned_from by exact Hvalid. rewrite Hnil. cbn [py_max].
    split; [apply map_ext; intros; lia|].
    apply Hsorted. clear. generalize 1%nat.
    induction (length calls) as [|n IH]; intros k; cbn [seq map]; constructor.
    + apply IH.
    + rewrite Forall_forall. intros i Hi. apply list_elem_of_In, in_map_iff in Hi.
      destruct Hi as (j & <- & Hj). apply in_seq in Hj. lia.
  - intros st evs Hk. destruct (ids_assigned_increasing evs st Hk) as [Hs Hf].
    split; [exact Hs|]. split; [apply Hsorted, Hs|].
    eapply Forall_impl; [exact Hf|]. intros i Hi Hin. simpl in Hi.
    destruct (py_max_spec (ids_of st) 0) as [_ Hall].
    { intros E. rewrite E in Hin. destruct Hin. }
    rewrite Forall_forall in Hall. apply list_elem_of_In in Hin.
    specialize (Hall _ Hin). simpl in Hall. lia.
Qed.

Definition sample_call : pystr * pystr * pystr * pystr :=
  (lit "Write report", lit "Q3 summary", lit "2024-07-15", lit "High").

Lemma add_task_id_is_max_plus_one_witness :
  last (task_list (task_manager
          (snd (add_task (lit "Review") [] (lit "2024-07-20") (lit "Low") fresh_store))))
    = Some (mk_task 1 (lit "Review") [] (lit "2024-07-20") (lit "Low"))
  /\ ids_assigned [Add (lit "Write report") (lit "Q3 summary") (lit "2024-07-15") (lit "High");
                   Add (lit "Review") [] (lit "2024-07-20") (lit "Low")] fresh_store
     = [1; 2]%Z
  /\ NoDup (ids_assigned [Add (lit "Write report") (lit "Q3 summary") (lit "2024-07-15")
                            (lit "High");
                          Add (lit "Review") [] (lit "2024-07-20") (lit "Low");
                          RemoveOutOfBand 0;
                          Add (lit "Plan sprint") [] (lit "2024-08-01") (lit "Medium")]
             fresh_store).
Proof.
  destruct add_task_id_is_max_plus_one as (H1 & H2 & H3).
  split; [|split].
  - apply (H1 fresh_store (lit "Review") [] (lit "2024-07-20") (lit "Low")).
    vm_compute. reflexivity.
  - apply (H2 fresh_store [sample_call; (lit "Review", [], lit "2024-07-20", lit "Low")]).
    + reflexivity.
    + repeat constructor.
  - apply (H3 fresh_store
             [Add (lit "Write report") (lit "Q3 summary") (lit "2024-07-15") (lit "High");
              Add (lit "Review") [] (lit "2024-07-20") (lit "Low");
              RemoveOutOfBand 0;
              Add (lit "Plan sprint") [] (lit "2024-08-01") (lit "Medium")]).
    vm_compute. auto.
Defined.

(** C1 as stated fails: a record is added and gets the id 1, it is
    removed out of band, and the next record added gets the id 1 again. *)
Lemma id_reused_after_removal :
  ids_assigned [Add (lit "Write report") (lit "Q3 summary") (lit "2024-07-15") (lit "High");
                RemoveOutOfBand 0;
                Add (lit "Review") [] (lit "2024-07-20") (lit "Low")] fresh_store
  = [1; 1]%Z
  /\ ~ NoDup (ids_assigned
                [Add (lit "Write report") (lit "Q3 summary") (lit "2024-07-15") (lit "High");
                 RemoveOutOfBand 0;
                 Add (lit "Review") [] (lit "2024-07-20") (lit "Low")] fresh_store).
Proof.
  assert (E : ids_assigned
                [Add (lit "Write report") (lit "Q3 summary") (lit "2024-07-15") (lit "High");
                 RemoveOutOfBand 0;
                 Add (lit "Review") [] (lit "2024-07-20") (lit "Low")] fresh_store
              = [1; 1]%Z) by (vm_compute; reflexivity).
  split; [exact E|]. rewrite E. intros H.
  apply NoDup_cons in H as [H _]. apply H. left.
Qed.

(** ** Validation *)

(** C2.  Whenever one of the three checks fails (empty title, priority
    outside the fixed set, due date that does not parse), [add_task]
    raises the validation error and leaves the whole state as it was: the
    collection in memory and every file, so also the persisted one. *)
Theorem add_task_failure_leaves_state st title description due_date priority :
  title = [] \/ ~ is_priority priority \/ (exists err, strptime due_date = inl err) ->
  exists e,
    add_task title description due_date priority st = (Raise e, st)
    /\ (e = InvalidTitle \/ e = InvalidPriority \/ e = InvalidDueDate)
    /\ task_list (task_manager (snd (add_task title description due_date priority st)))
       = task_list (task_manager st)
    /\ files (snd (add_task title description due_date priority st)) = files st.
Proof.
  intros H.
  assert (Hv : valid_input title due_date priority = false).
  { destruct (valid_input title due_date priority) eqn:E; [|reflexivity].
    apply valid_input_iff in E as (Ht & Hp & date & Hd).
    destruct H as [H|[H|[err H]]]; [contradiction|contradiction|congruence]. }
  destruct (add_task_invalid st title description due_date priority Hv) as (e & He & Hcases).
  exists e. rewrite He. auto.
Qed.

Lemma add_task_failure_leaves_state_witness :
  exists e,
    add_task [] (lit "x") (lit "2024-07-15") (lit "Low") fresh_store = (Raise e, fresh_store)
    /\ (e = InvalidTitle \/ e = InvalidPriority \/ e = InvalidDueDate)
    /\ task_list (task_manager
         (snd (add_task [] (lit "x") (lit "2024-07-15") (lit "Low") fresh_store)))
       = task_list (task_manager fresh_store)
    /\ files (snd (add_task [] (lit "x") (lit "2024-07-15") (lit "Low") fresh_store))
       = files fresh_store.
Proof.
  apply (add_task_failure_leaves_state fresh_store [] (lit "x") (lit "2024-07-15") (lit "Low")).
  left. reflexivity.
Defined.

(** C5.  The checks run in the order title, priority, due date: an empty
    title raises [InvalidTitle] whatever the other arguments are; with a
    non-empty title a priority outside the fixed set raises
    [InvalidPriority] whatever the due date is; with both in order, a due
    date that does not parse raises [InvalidDueDate].  The three failures
    are pairwise distinct. *)
Theorem validation_order st title description due_date priority :
  (title = [] ->
   add_task title description due_date priority st = (Raise InvalidTitle, st))
  /\ (title <> [] -> ~ is_priority priority ->
      add_task title description due_date priority st = (Raise InvalidPriority, st))
  /\ (title <> [] -> is_priority priority -> (exists err, strptime due_date = inl err) ->
      add_task title description due_date priority st = (Raise InvalidDueDate, st))
  /\ InvalidTitle <> InvalidPriority
  /\ InvalidTitle <> InvalidDueDate
  /\ InvalidPriority <> InvalidDueDate.
Proof.
  rewrite add_task_unfold.
  split; [|split; [|split; [|repeat split; discriminate]]].
  - intros ->. reflexivity.
  - intros Ht Hp. apply truthy_nonempty in Ht. rewrite Ht. cbn [negb].
    destruct (str_in priority [lit "Low"; lit "Medium"; lit "High"]) eqn:E; [|reflexivity].
    apply str_in_priorities in E. contradiction.
  - intros Ht Hp [err Hd]. apply truthy_nonempty in Ht. apply str_in_priorities in Hp.
    rewrite Ht, Hp, Hd. reflexivity.
Qed.

Lemma validation_order_witness :
  add_task [] (lit "x") (lit "2024/01/01") (lit "low") fresh_store
    = (Raise InvalidTitle, fresh_store)
  /\ add_task (lit "x") (lit "x") (lit "2024/01/01") (lit "low") fresh_store
     = (Raise InvalidPriority, fresh_store)
  /\ add_task (lit "x") (lit "x") (lit "2024/01/01") (lit "Low") fresh_store
     = (Raise InvalidDueDate, fresh_store).
Proof.
  split; [|split].
  - apply (validation_order fresh_store [] (lit "x") (lit "2024/01/01") (lit "low")).
    reflexivity.
  - apply (validation_order fresh_store (lit "x") (lit "x") (lit "2024/01/01") (lit "low")).
    + discriminate.
    + intros [H|[H|H]]; discriminate H.
  - apply (validation_order fresh_store (lit "x") (lit "x") (lit "2024/01/01") (lit "Low")).
    + discriminate.
    + left. reflexivity.
    + exists does_not_match. vm_compute. reflexivity.
Defined.

(** C6, as the code has it.  Once the title check has passed, that is,
    for every call with a non-empty title, [add_task] raises
    [InvalidPriority] exactly for the priority strings that are not
    character for character one of Low, Medium, High; the lower-case low
    is among the rejected ones, and for the three strings of the set the
    call never ends in [InvalidPriority]. *)
Theorem priority_check_is_exact st title description due_date priority :
  title <> [] ->
  (add_task title description due_date priority st = (Raise InvalidPriority, st)
   <-> priority <> lit "Low" /\ priority <> lit "Medium" /\ priority <> lit "High")
  /\ add_task title description due_date (lit "low") st = (Raise InvalidPriority, st)
  /\ (forall p, In p [lit "Low"; lit "Medium"; lit "High"] ->
      fst (add_task title description due_date p st) <> Raise InvalidPriority).
Proof.
  intros Ht. apply truthy_nonempty in Ht.
  rewrite !add_task_unfold, Ht. cbn [negb].
  split; [|split].
  - destruct (str_in priority [lit "Low"; lit "Medium"; lit "High"]) eqn:E; cbn [negb].
    + apply str_in_priorities in E. split.
      * destruct (strptime due_date); discriminate.
      * intros (? & ? & ?). destruct E as [?|[?|?]]; contradiction.
    + split; [|reflexivity]. intros _.
      repeat split; intros ->; discriminate E.
  - reflexivity.
  - intros p Hp. rewrite add_task_unfold, Ht. cbn [negb].
    assert (E : str_in p [lit "Low"; lit "Medium"; lit "High"] = true).
    { apply str_in_priorities. destruct Hp as [<-|[<-|[<-|[]]]]; auto. }
    rewrite E. cbn [negb]. destruct (strptime due_date); discriminate.
Qed.

Lemma priority_check_is_exact_witness :
  add_task (lit "Review") [] (lit "2024-07-20") (lit "low") fresh_store
  = (Raise InvalidPriority, fresh_store).
Proof.
  apply (priority_check_is_exact fresh_store (lit "Review") [] (lit "2024-07-20") (lit "low")).
  discriminate.
Defined.

(** C6 as stated fails for a call that does not reach the priority
    check: with the empty title and the priority [low], which is none of
    the three strings, [add_task] raises [InvalidTitle], not
    [InvalidPriority]. *)
Lemma empty_title_hides_priority_check :
  lit "low" <> lit "Low" /\ lit "low" <> lit "Medium" /\ lit "low" <> lit "High"
  /\ add_task [] (lit "Q3 summary") (lit "2024-07-20") (lit "low") fresh_store
     = (Raise InvalidTitle, fresh_store)
  /\ fst (add_task [] (lit "Q3 summary") (lit "2024-07-20") (lit "low") fresh_store)
     <> Raise InvalidPriority.
Proof.
  repeat split; try discriminate.
Qed.

(** C7.  [add_task] raises [InvalidTitle] exactly for the empty title.
    Nothing is trimmed: a title made of white space only is not empty, so
    it passes the title check, and with a valid priority and due date the
    record is stored with that title as given. *)
Theorem title_check_is_exact st title description due_date priority :
  (add_task title description due_date priority st = (Raise InvalidTitle, st)
   <-> title = [])
  /\ (title <> [] -> Forall (fun c => is_ws c = true) title ->
      fst (add_task title description due_date priority st) <> Raise InvalidTitle
      /\ (is_priority priority -> (exists date, strptime due_date = inr date) ->
          fst (add_task title description due_date priority st) = Return None
          /\ last (task_list (task_manager
                     (snd (add_task title description due_date priority st))))
             = Some (new_record st title description due_date priority)
          /\ task_title (new_record st title description due_date priority) = title)).
Proof.
  split.
  - rewrite add_task_unfold. destruct title as [|c title]; cbn [truthy negb].
    + split; reflexivity.
    + split; [|discriminate].
      destruct (str_in priority [lit "Low"; lit "Medium"; lit "High"]); cbn [negb];
        [destruct (strptime due_date)|]; discriminate.
  - intros Ht _. split.
    + rewrite add_task_unfold. apply truthy_nonempty in Ht. rewrite Ht. cbn [negb].
      destruct (str_in priority [lit "Low"; lit "Medium"; lit "High"]); cbn [negb];
        [destruct (strptime due_date)|]; discriminate.
    + intros Hp Hd.
      rewrite add_task_valid by (apply valid_input_iff; auto).
      cbn [fst snd added task_manager task_list]. rewrite last_snoc. auto.
Qed.

Lemma title_check_is_exact_witness :
  add_task [] (lit "x") (lit "2024-07-15") (lit "Low") fresh_store
    = (Raise InvalidTitle, fresh_store)
  /\ fst (add_task (lit " ") (lit "x") (lit "2024-07-15") (lit "Low") fresh_store)
     = Return None.
Proof.
  split.
  - apply (title_check_is_exact fresh_store [] (lit "x") (lit "2024-07-15") (lit "Low")).
    reflexivity.
  - apply (title_check_is_exact fresh_store (lit " ") (lit "x") (lit "2024-07-15") (lit "Low")).
    + discriminate.
    + repeat constructor.
    + left. reflexivity.
    + exists (2024, 7, 15)%N. vm_compute. reflexivity.
Defined.

(** ** What a successful call does *)

(** C4, as the code has it.  On valid input [add_task] evaluates to
    None, not to the record: the method has no return statement.  The
    new record, with the computed id and the given fields, becomes the
    last element of the collection, the file of the store is rewritten
    with the dump of the whole collection, and nothing else changes:
    the path of the store, every other file and the console stay as they
    were. *)
Theorem add_task_valid_effect st title description due_date priority :
  title <> [] -> is_priority priority -> (exists date, strptime due_date = inr date) ->
  let old := task_list (task_manager st) in
  let record :=
    mk_task (py_max (map task_id old) 0 + 1) title description due_date priority in
  add_task title description due_date priority st
  = (Return None,
     mk_state (mk_Task (json_file (task_manager st)) (old ++ [record]))
              (<[json_file (task_manager st) := json_dump (old ++ [record])]> (files st))
              (console st))
  /\ (forall path, path <> json_file (task_manager st) ->
      files (snd (add_task title description due_date priority st)) !! path
      = files st !! path).
Proof.
  intros Ht Hp Hd old record.
  rewrite add_task_valid by (apply valid_input_iff; auto).
  split; [reflexivity|].
  intros path Hpath. cbn [snd added files].
  apply lookup_insert_ne. congruence.
Qed.

Lemma add_task_valid_effect_witness :
  add_task (lit "Write report") (lit "Q3 summary") (lit "2024-07-15") (lit "High") fresh_store
  = (Return None,
     mk_state
       (mk_Task "tasks.json"
          [mk_task 1 (lit "Write report") (lit "Q3 summary") (lit "2024-07-15") (lit "High")])
       (<["tasks.json" :=
            json_dump
              [mk_task 1 (lit "Write report") (lit "Q3 summary") (lit "2024-07-15") (lit "High")]]> ∅)
       []).
Proof.
  apply (add_task_valid_effect fresh_store
           (lit "Write report") (lit "Q3 summary") (lit "2024-07-15") (lit "High")).
  - discriminate.
  - right. right. reflexivity.
  - exists (2024, 7, 15)%N. vm_compute. reflexivity.
Defined.

(** C4 as stated fails: on the valid input of the end-to-end example the
    call evaluates to None and not to the record it has stored. *)
Lemma add_task_does_not_return_the_record :
  fst (add_task (lit "Write report") (lit "Q3 summary") (lit "2024-07-15") (lit "High")
         fresh_store)
  <> Return (Some (mk_task 1 (lit "Write report") (lit "Q3 summary") (lit "2024-07-15")
                     (lit "High"))).
Proof.
  rewrite add_task_valid by (vm_compute; reflexivity). discriminate.
Qed.

Lemma view_keeps_store renders st :
  task_manager (snd (view renders st)) = task_manager st.
Proof.
  unfold view, bind, get_self, print, raise.
  destruct (task_list (task_manager st)); [reflexivity|].
  destruct (renders _); reflexivity.
Qed.

Lemma save_to_json_keeps_store st : task_manager (snd (save_to_json st)) = task_manager st.
Proof. reflexivity. Qed.

(** C10.  When [add_task] succeeds, the collection is the old one with
    the new record appended: every record is still at its position,
    unchanged, and the length has grown by one.  No operation of the tool
    changes or moves a record that is in the collection: [add_task],
    [save_to_json] and the commands [add] and [view] leave every record
    at its position, whether or not the console renders the table. *)
Theorem add_task_frame renders st title description due_date priority r st' :
  add_task title description due_date priority st = (Return r, st') ->
  let old := task_list (task_manager st) in
  task_list (task_manager st')
    = old ++ [new_record st title description due_date priority]
  /\ length (task_list (task_manager st')) = S (length old)
  /\ (forall i t, old !! i = Some t -> task_list (task_manager st') !! i = Some t)
  /\ (forall i t op,
        In op [snd ∘ add_task title description due_date priority;
               snd ∘ add title description due_date priority;
               snd ∘ save_to_json; snd ∘ view renders] ->
        old !! i = Some t -> task_list (task_manager (op st)) !! i = Some t).
Proof.
  intros H old. apply add_task_returns in H as (Hv & -> & ->).
  cbn [added task_manager task_list]. fold old.
  split; [reflexivity|]. split; [rewrite length_app; simpl; lia|].
  split; [intros i t Hi; apply lookup_app_l_Some; exact Hi|].
  intros i t op Hop Hi.
  assert (Hadd : task_list (task_manager (snd (add_task title description due_date priority st)))
                 !! i = Some t).
  { rewrite add_task_valid by exact Hv. cbn [snd added task_manager task_list].
    apply lookup_app_l_Some. exact Hi. }
  destruct Hop as [<-|[<-|[<-|[<-|[]]]]]; cbn [compose].
  - exact Hadd.
  - unfold add, try_except, bind, print.
    rewrite add_task_valid in * by exact Hv. exact Hadd.
  - rewrite save_to_json_keeps_store. exact Hi.
  - rewrite view_keeps_store. exact Hi.
Qed.

Lemma add_task_frame_witness :
  let st := snd (add_task (lit "Write report") (lit "Q3 summary") (lit "2024-07-15")
                   (lit "High") fresh_store) in
  length (task_list (task_manager
            (snd (add_task (lit "Review") [] (lit "2024-07-20") (lit "Low") st))))
  = S (length (task_list (task_manager st))).
Proof.
  intros st.
  apply (add_task_frame (fun _ => true) st (lit "Review") [] (lit "2024-07-20") (lit "Low") None
           (snd (add_task (lit "Review") [] (lit "2024-07-20") (lit "Low") st))).
  vm_compute. reflexivity.
Defined.

(** ** Starting without a file *)

(** C9.  When no file exists at the path, initialising the store is not
    an error: the store starts with the empty collection, and the [view]
    command then prints the notice that there are no tasks, and nothing
    else. *)
Theorem missing_file_is_empty_store (path : string) (fs : gmap string pystr)
    (renders : list (list pystr) -> bool) :
  fs !! path = None ->
  Task_init path fs = inr (mk_Task path [])
  /\ start path fs = inr (mk_state (mk_Task path []) fs [])
  /\ task_list (mk_Task path []) = []
  /\ view renders (mk_state (mk_Task path []) fs [])
     = (Return tt,
        mk_state (mk_Task path []) fs [Markup "[yellow]No current tasks.[/yellow]"]).
Proof.
  intros H. unfold start, Task_init, load_from_json. rewrite H. auto.
Qed.

Lemma missing_file_is_empty_store_witness :
  start "tasks.json" ∅ = inr fresh_store
  /\ view (fun _ => false) fresh_store
     = (Return tt,
        mk_state (mk_Task "tasks.json" []) ∅ [Markup "[yellow]No current tasks.[/yellow]"]).
Proof.
  split; apply (missing_file_is_empty_store "tasks.json" ∅ (fun _ => false)); reflexivity.
Defined.

(** ** The due date *)

Section PaddedDates.
Local Open Scope N_scope.

Lemma is_digit_cases c :
  is_digit c = true ->
  c = 48 \/ c = 49 \/ c = 50 \/ c = 51 \/ c = 52
  \/ c = 53 \/ c = 54 \/ c = 55 \/ c = 56 \/ c = 57.
Proof.
  unfold is_digit. intros H. apply andb_prop in H as [H1 H2].
  apply N.leb_le in H1, H2. lia.
Qed.

Lemma decimal_value_digit c : is_digit c = true -> decimal_value c = Some (c - 48).
Proof.
  intros H. unfold decimal_value, decimal_zeros. cbn [List.find].
  unfold is_digit in H. apply andb_prop in H as [H1 H2].
  apply N.leb_le in H2. rewrite H1.
  destruct (N.ltb_spec c (48 + 10)); [reflexivity|lia].
Qed.

Lemma re_group_Y_digits y1 y2 y3 y4 r :
  forallb is_digit [y1; y2; y3; y4] = true ->
  re_group_Y (y1 :: y2 :: y3 :: y4 :: r)
  = [(1000 * (y1 - 48) + 100 * (y2 - 48) + 10 * (y3 - 48) + (y4 - 48), r)].
Proof.
  cbn [forallb]. rewrite !andb_true_iff. intros (H1 & H2 & H3 & H4 & _).
  unfold re_group_Y, re_d.
  rewrite (decimal_value_digit y1 H1). cbn [mbind list_bind app].
  rewrite (decimal_value_digit y2 H2). cbn [mbind list_bind app].
  rewrite (decimal_value_digit y3 H3). cbn [mbind list_bind app].
  rewrite (decimal_value_digit y4 H4). cbn [mbind list_bind app].
  reflexivity.
Qed.

Lemma re_group_m_padded m1 m2 r :
  is_digit m1 = true -> is_digit m2 = true ->
  1 <= 10 * (m1 - 48) + (m2 - 48) <= 12 ->
  exists others,
    re_group_m (m1 :: m2 :: r) = (10 * (m1 - 48) + (m2 - 48), r) :: others.
Proof.
  intros H1 H2 Hm.
  destruct (is_digit_cases m1 H1) as [->|[->|[->|[->|[->|[->|[->|[->|[->| ->]]]]]]]]];
    destruct (is_digit_cases m2 H2) as [->|[->|[->|[->|[->|[->|[->|[->|[->| ->]]]]]]]]];
    try (exfalso; clear - Hm; cbn in Hm; lia);
    eexists; reflexivity.
Qed.

Lemma re_group_d_padded x1 x2 r :
  is_digit x1 = true -> is_digit x2 = true ->
  1 <= 10 * (x1 - 48) + (x2 - 48) <= 31 ->
  exists others,
    re_group_d (x1 :: x2 :: r) = (10 * (x1 - 48) + (x2 - 48), r) :: others.
Proof.
  intros H1 H2 Hd.
  destruct (is_digit_cases x1 H1) as [->|[->|[->|[->|[->|[->|[->|[->|[->| ->]]]]]]]]];
    destruct (is_digit_cases x2 H2) as [->|[->|[->|[->|[->|[->|[->|[->|[->| ->]]]]]]]]];
    try (exfalso; clear - Hd; cbn in Hd; lia);
    eexists; reflexivity.
Qed.

Lemma days_in_month_le_31 year month : days_in_month year month <= 31.
Proof.
  unfold days_in_month. destruct ((month =? 2) && is_leap year); [lia|].
  generalize (N.to_nat month). intros n.
  do 13 (destruct n as [|n]; [cbn [nth]; lia|]). cbn [nth]. destruct n; lia.
Qed.

(** Every date written in the form YYYY-MM-DD that names a day of the
    calendar passes the date check. *)
Lemma padded_date_is_accepted s :
  is_YYYY_MM_DD s = true -> exists date, strptime s = inr date.
Proof.
  unfold is_YYYY_MM_DD.
  destruct s as [|y1 [|y2 [|y3 [|y4 [|h1 [|m1 [|m2 [|h2 [|x1 [|x2 [|? ?]]]]]]]]]]];
    try discriminate.
  rewrite !andb_true_iff.
  intros [[[Hdig Hh1] Hh2] [[[[Hy Hm1] Hm12] Hd1] Hdim]].
  apply N.eqb_eq in Hh1, Hh2. subst h1 h2.
  apply N.leb_le in Hy, Hm1, Hm12, Hd1, Hdim.
  assert (HY : forallb is_digit [y1; y2; y3; y4] = true).
  { cbn [forallb] in *. rewrite !andb_true_iff in *. tauto. }
  assert (Hm1d : is_digit m1 = true) by (cbn [forallb] in Hdig; rewrite !andb_true_iff in Hdig; tauto).
  assert (Hm2d : is_digit m2 = true) by (cbn [forallb] in Hdig; rewrite !andb_true_iff in Hdig; tauto).
  assert (Hx1d : is_digit x1 = true) by (cbn [forallb] in Hdig; rewrite !andb_true_iff in Hdig; tauto).
  assert (Hx2d : is_digit x2 = true) by (cbn [forallb] in Hdig; rewrite !andb_true_iff in Hdig; tauto).
  set (year := 1000 * (y1 - 48) + 100 * (y2 - 48) + 10 * (y3 - 48) + (y4 - 48)) in *.
  set (month := 10 * (m1 - 48) + (m2 - 48)) in *.
  set (day := 10 * (x1 - 48) + (x2 - 48)) in *.
  pose proof (days_in_month_le_31 year month) as H31.
  destruct (re_group_m_padded m1 m2 (45 :: x1 :: x2 :: []) Hm1d Hm2d (conj Hm1 Hm12))
    as [om Em].
  destruct (re_group_d_padded x1 x2 [] Hx1d Hx2d ltac:(fold day; lia)) as [od Ed].
  fold month in Em. fold day in Ed.
  assert (E : format_regex_match
                [y1; y2; y3; y4; 45; m1; m2; 45; x1; x2]
              = Some (year, month, day, [])).
  { unfold format_regex_match. rewrite (re_group_Y_digits _ _ _ _ _ HY). fold year.
    cbn [mbind list_bind app re_char N.eqb Pos.eqb].
    rewrite Em. cbn [mbind list_bind app re_char N.eqb Pos.eqb].
    rewrite Ed. reflexivity. }
  exists (year, month, day). unfold strptime. rewrite E.
  destruct (N.ltb_spec year 1); [lia|].
  destruct (N.ltb_spec (days_in_month year month) day); [lia|]. reflexivity.
Qed.
End PaddedDates.

(** C8 fails on the code.  The due date 2024-7-5 is not in the form
    YYYY-MM-DD, yet the date check lets it through and the record is
    stored with this text; the three dates the claim names behave as it
    says. *)
Theorem unpadded_due_date_is_accepted :
  is_YYYY_MM_DD (lit "2024-7-5") = false
  /\ strptime (lit "2024-7-5") = inr (2024, 7, 5)%N
  /\ add_task (lit "Write report") (lit "Q3 summary") (lit "2024-7-5") (lit "High") fresh_store
     = (Return None,
        added fresh_store (lit "Write report") (lit "Q3 summary") (lit "2024-7-5") (lit "High"))
  /\ map task_due_date
       (task_list (task_manager
          (snd (add_task (lit "Write report") (lit "Q3 summary") (lit "2024-7-5") (lit "High")
                  fresh_store))))
     = [lit "2024-7-5"]
  /\ fst (add_task (lit "Write report") (lit "Q3 summary") (lit "2024-13-01") (lit "High")
            fresh_store) = Raise InvalidDueDate
  /\ fst (add_task (lit "Write report") (lit "Q3 summary") (lit "2024/01/01") (lit "High")
            fresh_store) = Raise InvalidDueDate
  /\ fst (add_task (lit "Write report") (lit "Q3 summary") (lit "2024-07-15") (lit "High")
            fresh_store) = Return None.
Proof.
  split; [vm_compute; reflexivity|].
  split; [vm_compute; reflexivity|].
  split; [apply add_task_valid; vm_compute; reflexivity|].
  split; [rewrite add_task_valid by (vm_compute; reflexivity); reflexivity|].
  rewrite !add_task_unfold.
  repeat split; vm_compute; reflexivity.
Qed.

(** ** Persistence: reading back what was written *)

Section RoundTrip.
Local Open Scope N_scope.

(** The conditions on strings and tasks, as propositions. *)
Definition str_in_range (s : pystr) : Prop := Forall (fun c => c < 0x110000) s.

Definition plain_strP (s : pystr) : Prop :=
  str_in_range s /\ no_surrogate_pair s = true.

Definition plain_taskP (t : task) : Prop :=
  plain_strP (task_title t) /\ plain_strP (task_description t)
  /\ plain_strP (task_due_date t) /\ plain_strP (task_priority t).

Lemma plain_str_spec s : plain_str s = true -> plain_strP s.
Proof.
  unfold plain_str, plain_strP, wf_str, str_in_range. intros H.
  apply andb_prop in H as [Hwf Hns]. split; [|exact Hns].
  rewrite forallb_forall in Hwf. apply Forall_forall. intros c Hc.
  apply N.ltb_lt, Hwf, list_elem_of_In, Hc.
Qed.

Lemma plain_task_spec t : plain_task t = true -> plain_taskP t.
Proof.
  unfold plain_task, plain_taskP. intros H.
  apply andb_prop in H as [H H4]. apply andb_prop in H as [H H3].
  apply andb_prop in H as [H1 H2]. auto using plain_str_spec.
Qed.

Lemma plain_tasks_spec l : forallb plain_task l = true -> Forall plain_taskP l.
Proof.
  intros H. rewrite forallb_forall in H. apply Forall_forall. intros t Ht.
  apply plain_task_spec, H, list_elem_of_In, Ht.
Qed.

(** *** Escapes *)

Lemma hex_value_hex_digit k : k < 16 -> hex_value (hex_digit k) = Some k.
Proof.
  intros H. destruct k as [|p]; [reflexivity|].
  do 4 (try destruct p as [p|p|]); try reflexivity; lia.
Qed.

Lemma hex_split n :
  n < 65536 ->
  4096 * (n / 4096 mod 16) + 256 * (n / 256 mod 16) + 16 * (n / 16 mod 16) + n mod 16 = n.
Proof.
  intros H.
  pose proof (N.div_mod n 16 ltac:(lia)) as E0.
  pose proof (N.div_mod (n / 16) 16 ltac:(lia)) as E1.
  pose proof (N.div_mod (n / 256) 16 ltac:(lia)) as E2.
  rewrite (N.Div0.div_div n 16 16) in E1. change (16 * 16) with 256 in E1.
  assert (E3 : n / 256 / 16 = n / 4096) by (rewrite N.Div0.div_div; reflexivity).
  rewrite E3 in E2.
  assert (n / 4096 < 16) by (apply N.Div0.div_lt_upper_bound; lia).
  rewrite (N.mod_small (n / 4096) 16) by assumption.
  lia.
Qed.

Lemma decode_u_escape n :
  n < 65536 ->
  decode_uXXXX (hex_digit (n / 4096 mod 16)) (hex_digit (n / 256 mod 16))
               (hex_digit (n / 16 mod 16)) (hex_digit (n mod 16)) = Some n.
Proof.
  intros H. unfold decode_uXXXX.
  rewrite !hex_value_hex_digit by (apply N.mod_lt; lia).
  rewrite hex_split by exact H. reflexivity.
Qed.

(** Below [2 ^ k], [lor] with a multiple of [2 ^ k] is addition. *)
Lemma lor_shiftl_low a x k : x < 2 ^ k -> N.lor (N.shiftl a k) x = a * 2 ^ k + x.
Proof.
  intros H.
  assert (E : N.land (N.shiftl a k) x = 0).
  { apply N.bits_inj_0. intros i. rewrite N.land_spec.
    destruct (N.lt_ge_cases i k) as [Hi|Hi].
    - rewrite N.shiftl_spec_low by exact Hi. reflexivity.
    - assert (Hx : N.testbit x i = false).
      { apply N.testbit_false. rewrite N.div_small; [reflexivity|].
        eapply N.lt_le_trans; [exact H|]. apply N.pow_le_mono_r; lia. }
      rewrite Hx. apply andb_false_r. }
  rewrite <- N.lxor_lor by exact E. rewrite <- N.add_nocarry_lxor by exact E.
  rewrite N.shiftl_mul_pow2. reflexivity.
Qed.

(** The two halves [replace] writes for a character beyond the basic
    plane. *)
Definition high_half (c : N) : N :=
  N.lor 0xd800 (N.land (N.shiftr (c - 0x10000) 10) 0x3ff).
Definition low_half (c : N) : N :=
  N.lor 0xdc00 (N.land (c - 0x10000) 0x3ff).

Lemma high_half_eq c :
  0x10000 <= c < 0x110000 -> high_half c = 0xd800 + (c - 0x10000) / 1024.
Proof.
  intros H. unfold high_half.
  rewrite N.shiftr_div_pow2. change (2 ^ 10) with 1024.
  change 0x3ff with (N.ones 10). rewrite N.land_ones. change (2 ^ 10) with 1024.
  assert ((c - 0x10000) / 1024 < 1024) by (apply N.Div0.div_lt_upper_bound; lia).
  rewrite N.mod_small by assumption.
  change 0xd800 with (N.shiftl 54 10) at 1.
  rewrite lor_shiftl_low by assumption. reflexivity.
Qed.

Lemma low_half_eq c :
  0x10000 <= c < 0x110000 -> low_half c = 0xdc00 + (c - 0x10000) mod 1024.
Proof.
  intros H. unfold low_half.
  change 0x3ff with (N.ones 10). rewrite N.land_ones. change (2 ^ 10) with 1024.
  assert ((c - 0x10000) mod 1024 < 1024) by (apply N.mod_lt; lia).
  change 0xdc00 with (N.shiftl 55 10) at 1.
  rewrite lor_shiftl_low by assumption. reflexivity.
Qed.

Lemma join_halves c :
  0x10000 <= c < 0x110000 ->
  0x10000 + N.lor (N.shiftl (high_half c - 0xd800) 10) (low_half c - 0xdc00) = c.
Proof.
  intros H. rewrite high_half_eq, low_half_eq by exact H.
  rewrite (N.add_comm 0xd800), (N.add_comm 0xdc00), !N.add_sub.
  rewrite lor_shiftl_low by (apply N.mod_lt; discriminate).
  change (2 ^ 10) with 1024.
  pose proof (N.div_mod (c - 0x10000) 1024 ltac:(lia)) as E.
  revert E. generalize ((c - 0x10000) / 1024) ((c - 0x10000) mod 1024).
  intros q r E. lia.
Qed.

Lemma high_half_range c :
  0x10000 <= c < 0x110000 -> 0xd800 <= high_half c <= 0xdbff.
Proof.
  intros H. rewrite high_half_eq by exact H.
  assert (E : (c - 0x10000) / 1024 < 1024) by (apply N.Div0.div_lt_upper_bound; lia).
  revert E. generalize ((c - 0x10000) / 1024). intros q E. lia.
Qed.

Lemma low_half_range c :
  0x10000 <= c < 0x110000 -> 0xdc00 <= low_half c <= 0xdfff.
Proof.
  intros H. rewrite low_half_eq by exact H.
  assert (E : (c - 0x10000) mod 1024 < 1024) by (apply N.mod_lt; lia).
  revert E. generalize ((c - 0x10000) mod 1024). intros r E. lia.
Qed.
(** *** Strings *)

(** How [encode_basestring_ascii] writes one character. *)
Lemma escape_char_cases c :
  c < 0x110000 ->
  (escape_char c = [c] /\ c <> 34 /\ c <> 92 /\ 32 <= c)
  \/ (exists e, escape_char c = [92; e] /\ e <> 117 /\ backslash e = Some c)
  \/ (escape_char c = u_escape c /\ c < 0x10000)
  \/ (escape_char c = u_escape (high_half c) ++ u_escape (low_half c) /\ 0x10000 <= c).
Proof.
  intros H. unfold escape_char, needs_escape, replace, escape_dct.
  destruct (N.eqb_spec c 92) as [->|H92];
    [right; left; exists 92; repeat split; discriminate|].
  destruct (N.eqb_spec c 34) as [->|H34];
    [right; left; exists 34; repeat split; discriminate|].
  cbn [orb].
  destruct (N.leb_spec 32 c) as [H32|H32]; cbn [andb negb].
  - destruct (N.leb_spec c 126) as [H126|H126]; cbn [negb].
    + left. auto.
    + repeat (match goal with
              | |- context [N.eqb c ?k] =>
                  destruct (N.eqb_spec c k) as [?|_]; [lia|]
              end).
      destruct (N.ltb_spec c 32); [lia|].
      destruct (N.ltb_spec c 0x10000); right; right; [left|right]; split; auto.
  - destruct (N.eqb_spec c 8) as [->|?];
      [right; left; exists 98; repeat split; discriminate|].
    destruct (N.eqb_spec c 12) as [->|?];
      [right; left; exists 102; repeat split; discriminate|].
    destruct (N.eqb_spec c 10) as [->|?];
      [right; left; exists 110; repeat split; discriminate|].
    destruct (N.eqb_spec c 13) as [->|?];
      [right; left; exists 114; repeat split; discriminate|].
    destruct (N.eqb_spec c 9) as [->|?];
      [right; left; exists 116; repeat split; discriminate|].
    destruct (N.ltb_spec c 32); [|lia].
    right; right; left. split; [reflexivity|lia].
Qed.

Lemma escape_char_nonempty c : c < 0x110000 -> (0 < length (escape_char c))%nat.
Proof.
  intros H. destruct (escape_char_cases c H) as [(-> & _)|[(e & -> & _)|[(-> & _)|(-> & _)]]];
    simpl; lia.
Qed.

Lemma surrogates_apart c : is_high_surrogate c = true -> is_low_surrogate c = false.
Proof.
  unfold is_high_surrogate, is_low_surrogate. intros H.
  apply andb_prop in H as [_ H]. apply N.leb_le in H.
  destruct (N.leb_spec 0xdc00 c); [lia|reflexivity].
Qed.

Lemma high_half_is_high c : 0x10000 <= c < 0x110000 -> is_high_surrogate (high_half c) = true.
Proof.
  intros H. pose proof (high_half_range c H) as [? ?]. unfold is_high_surrogate.
  apply andb_true_intro. split; apply N.leb_le; assumption.
Qed.

Lemma low_half_is_low c : 0x10000 <= c < 0x110000 -> is_low_surrogate (low_half c) = true.
Proof.
  intros H. pose proof (low_half_range c H) as [? ?]. unfold is_low_surrogate.
  apply andb_true_intro. split; apply N.leb_le; assumption.
Qed.

Lemma second_escape_u_escape n tail :
  n < 0x10000 ->
  second_escape (u_escape n ++ tail)
  = if is_low_surrogate n then Some (Some (n, tail)) else None.
Proof.
  intros H. unfold u_escape. cbn [app second_escape N.eqb Pos.eqb andb].
  rewrite decode_u_escape by exact H. reflexivity.
Qed.

(** After a character that is not followed by a low surrogate, the
    scanner finds no second half of a pair. *)
Lemma second_escape_escape_body s rest :
  str_in_range s ->
  match s with b :: _ => is_low_surrogate b = false | [] => True end ->
  second_escape (escape_body s ++ 34 :: rest) = None.
Proof.
  intros Hwf Hlow. destruct s as [|c s].
  - cbn. destruct rest; reflexivity.
  - apply Forall_cons in Hwf as [Hc Hwf].
    unfold escape_body. cbn [map concat].
    fold (escape_body s). rewrite <- app_assoc.
    destruct (escape_char_cases c Hc)
      as [(-> & H34 & H92 & _)|[(e & -> & He & _)|[(-> & Hlt)|(-> & Hge)]]].
    + cbn [app second_escape].
      destruct (escape_body s ++ 34 :: rest) eqn:E; [reflexivity|].
      apply N.eqb_neq in H92. rewrite H92. reflexivity.
    + cbn [app second_escape N.eqb Pos.eqb andb].
      apply N.eqb_neq in He. rewrite He. reflexivity.
    + rewrite second_escape_u_escape by exact Hlt. rewrite Hlow. reflexivity.
    + rewrite <- app_assoc.
      pose proof (high_half_range c (conj Hge Hc)) as [? ?].
      rewrite second_escape_u_escape by lia.
      rewrite surrogates_apart by (apply high_half_is_high; auto). reflexivity.
Qed.

(** One turn of [scanstring] reads back one character of the string
    that was written. *)
Lemma scanstring_step c tail fuel :
  c < 0x110000 ->
  (is_high_surrogate c = true -> second_escape tail = None) ->
  scanstring (S fuel) (escape_char c ++ tail)
  = '(chunks, rest) ← scanstring fuel tail; Some (c :: chunks, rest).
Proof.
  intros Hc Hhigh.
  destruct (escape_char_cases c Hc)
    as [(-> & H34 & H92 & H32)|[(e & -> & He & Hb)|[(-> & Hlt)|(-> & Hge)]]].
  - cbn [app scanstring].
    apply N.eqb_neq in H34, H92. rewrite H34, H92.
    destruct (N.ltb_spec c 32); [lia|reflexivity].
  - cbn [app scanstring N.eqb Pos.eqb].
    apply N.eqb_neq in He. rewrite He, Hb. reflexivity.
  - unfold u_escape. cbn [app scanstring N.eqb Pos.eqb].
    rewrite decode_u_escape by exact Hlt.
    destruct (is_high_surrogate c) eqn:E; [|reflexivity].
    rewrite Hhigh by reflexivity. reflexivity.
  - rewrite <- app_assoc.
    pose proof (high_half_range c (conj Hge Hc)) as [? ?].
    pose proof (low_half_range c (conj Hge Hc)) as [? ?].
    unfold u_escape at 1. cbn [app scanstring N.eqb Pos.eqb].
    rewrite decode_u_escape by lia.
    rewrite high_half_is_high by auto.
    rewrite second_escape_u_escape by lia.
    rewrite low_half_is_low by auto.
    rewrite join_halves by auto. reflexivity.
Qed.

Lemma no_surrogate_pair_cons c s :
  no_surrogate_pair (c :: s) = true ->
  no_surrogate_pair s = true
  /\ (is_high_surrogate c = true ->
      match s with b :: _ => is_low_surrogate b = false | [] => True end).
Proof.
  cbn [no_surrogate_pair]. intros H. apply andb_prop in H as [H1 H2].
  split; [exact H2|]. intros Hh. destruct s as [|b s]; [exact I|].
  rewrite Hh in H1. cbn in H1. destruct (is_low_surrogate b); [discriminate|reflexivity].
Qed.

(** [scanstring] reads back the string [encode_basestring_ascii] wrote. *)
Lemma scanstring_escape_body s : forall fuel rest,
  str_in_range s -> no_surrogate_pair s = true ->
  (length (escape_body s) < fuel)%nat ->
  scanstring fuel (escape_body s ++ 34 :: rest) = Some (s, rest).
Proof.
  induction s as [|c s IH]; intros fuel rest Hwf Hns Hfuel.
  - destruct fuel; [inversion Hfuel|]. reflexivity.
  - apply Forall_cons in Hwf as [Hc Hwf].
    apply no_surrogate_pair_cons in Hns as [Hns Hnext].
    unfold escape_body in *. cbn [map concat] in *. fold (escape_body s) in *.
    rewrite length_app in Hfuel. pose proof (escape_char_nonempty c Hc).
    destruct fuel as [|fuel]; [inversion Hfuel|].
    rewrite <- app_assoc.
    rewrite scanstring_step;
      [|exact Hc|intros Hh; apply second_escape_escape_body; [exact Hwf|exact (Hnext Hh)]].
    rewrite IH by (auto; lia). reflexivity.
Qed.

Lemma scan_string_value depth s rest :
  str_in_range s -> no_surrogate_pair s = true ->
  scan_once (S depth) (encode_basestring_ascii s ++ rest) = Some (JStr s, rest).
Proof.
  intros Hwf Hns. unfold encode_basestring_ascii.
  cbn [app scan_once N.eqb Pos.eqb]. rewrite <- app_assoc. cbn [app].
  rewrite scanstring_escape_body; [reflexivity|exact Hwf|exact Hns|].
  rewrite length_app. simpl. lia.
Qed.
(** *** Integers *)

Definition char_of_digit (d : DecimalFacts.digits) : N :=
  match d with
  | d0 => 48 | d1 => 49 | d2 => 50 | d3 => 51 | d4 => 52
  | d5 => 53 | d6 => 54 | d7 => 55 | d8 => 56 | d9 => 57
  end.

Lemma digit_chars_eq u : digit_chars u = map char_of_digit (DecimalFacts.to_list u).
Proof. reflexivity. Qed.

Lemma char_of_digit_is_digit d : is_digit (char_of_digit d) = true.
Proof. destruct d; reflexivity. Qed.

Lemma digit_of_char_of_digit d : digit_of_char (char_of_digit d) = d.
Proof. destruct d; reflexivity. Qed.

Lemma int_of_digit_chars u : int_of_digits (digit_chars u) = Z.of_uint u.
Proof.
  unfold int_of_digits. rewrite digit_chars_eq, map_map.
  rewrite (map_ext _ (fun d => d)) by apply digit_of_char_of_digit.
  rewrite map_id, DecimalFacts.of_list_to_list. reflexivity.
Qed.

Lemma span_digits_app (ds : list DecimalFacts.digits) c r :
  is_digit c = false ->
  span_digits (map char_of_digit ds ++ c :: r) = (map char_of_digit ds, c :: r).
Proof.
  intros Hc. induction ds as [|d ds IH]; cbn [map app span_digits].
  - rewrite Hc. reflexivity.
  - rewrite char_of_digit_is_digit, IH. reflexivity.
Qed.

(** The decimal digits of a positive number: at least one, and the
    first is not a zero. *)
Lemma to_uint_head p :
  exists d ds, DecimalFacts.to_list (Pos.to_uint p) = d :: ds /\ d <> d0.
Proof.
  pose proof (DecimalPos.Unsigned.to_of (Pos.to_uint p)) as E.
  rewrite DecimalPos.Unsigned.of_to in E. cbn [N.to_uint] in E.
  pose proof (DecimalPos.Unsigned.to_uint_nonzero p) as Hnz.
  pose proof (DecimalFacts.nzhead_nonzero (Pos.to_uint p)) as Hhd.
  unfold Decimal.unorm in E.
  destruct (Decimal.nzhead (Pos.to_uint p)) eqn:En;
    try (rewrite E in Hnz; exfalso; apply Hnz; reflexivity);
    try (exfalso; eapply Hhd; reflexivity);
    rewrite E; cbn [DecimalFacts.to_list]; eexists _, _; (split; [reflexivity|discriminate]).
Qed.

(** A character after which a number cannot go on. *)
Definition ends_number (c : N) : bool :=
  negb (is_digit c) && negb (c =? 46) && negb (c =? 101) && negb (c =? 69).

Lemma match_frac_end c r : ends_number c = true -> match_frac (c :: r) = ([], c :: r).
Proof.
  unfold ends_number, match_frac. intros H.
  destruct r; [reflexivity|]. destruct (c =? 46); [|reflexivity].
  rewrite andb_false_r in H. discriminate.
Qed.

Lemma match_exp_end c r : ends_number c = true -> match_exp (c :: r) = ([], c :: r).
Proof.
  unfold ends_number, match_exp. intros H.
  destruct (c =? 101); [rewrite andb_false_r in H; discriminate|].
  destruct (c =? 69); [rewrite andb_false_r in H; discriminate|]. reflexivity.
Qed.

Lemma match_number_digits (u : Decimal.uint) c r :
  (u = Decimal.zero
   \/ exists d ds, DecimalFacts.to_list u = d :: ds /\ d <> d0) ->
  ends_number c = true ->
  match_number (digit_chars u ++ c :: r) = Some (JInt (Z.of_uint u), c :: r).
Proof.
  intros Hu Hc.
  assert (Hnd : is_digit c = false).
  { unfold ends_number in Hc. destruct (is_digit c); [discriminate|reflexivity]. }
  destruct Hu as [->|(d & ds & E & Hd)].
  - change (digit_chars Decimal.zero) with [48]. unfold match_number. cbn [app].
    change (48 =? 45) with false. cbv beta iota.
    change (is_digit 48) with true. change (48 =? 48) with true. cbv beta iota zeta.
    rewrite match_frac_end, match_exp_end by exact Hc. reflexivity.
  - rewrite <- (int_of_digit_chars u). rewrite digit_chars_eq, E.
    unfold match_number. cbn [map app].
    assert (H45 : (char_of_digit d =? 45) = false) by (destruct d; reflexivity).
    assert (H48 : (char_of_digit d =? 48) = false)
      by (destruct d; try reflexivity; congruence).
    rewrite H45, char_of_digit_is_digit, H48.
    change (char_of_digit d :: map char_of_digit ds ++ c :: r)
      with (map char_of_digit (d :: ds) ++ c :: r).
    rewrite span_digits_app by exact Hnd.
    rewrite match_frac_end, match_exp_end by exact Hc. reflexivity.
Qed.

Lemma match_number_int_repr z c r :
  ends_number c = true ->
  match_number (int_repr z ++ c :: r) = Some (JInt z, c :: r).
Proof.
  intros Hc. unfold int_repr. destruct z as [|p|p]; cbn [Z.to_int].
  - rewrite (match_number_digits Decimal.zero c r) by auto. reflexivity.
  - rewrite (match_number_digits (Pos.to_uint p) c r) by (auto using to_uint_head).
    unfold Z.of_uint. rewrite DecimalPos.Unsigned.of_to. reflexivity.
  - assert (Hnd : is_digit c = false).
    { unfold ends_number in Hc. destruct (is_digit c); [discriminate|reflexivity]. }
    destruct (to_uint_head p) as (d & ds & E & Hd).
    pose proof (int_of_digit_chars (Pos.to_uint p)) as Hv.
    rewrite digit_chars_eq, E in *.
    unfold match_number. cbn [map app N.eqb Pos.eqb].
    assert (H48 : (char_of_digit d =? 48) = false)
      by (destruct d; try reflexivity; congruence).
    rewrite char_of_digit_is_digit, H48.
    change (char_of_digit d :: map char_of_digit ds ++ c :: r)
      with (map char_of_digit (d :: ds) ++ c :: r).
    rewrite span_digits_app by exact Hnd.
    rewrite match_frac_end, match_exp_end by exact Hc.
    cbn [map] in *. rewrite Hv.
    unfold Z.of_uint. rewrite DecimalPos.Unsigned.of_to. reflexivity.
Qed.

(** The text of an integer starts with a minus sign or a digit. *)
Lemma int_repr_head z :
  exists c0 cs, int_repr z = c0 :: cs /\ (c0 = 45 \/ is_digit c0 = true).
Proof.
  unfold int_repr. destruct z as [|p|p]; cbn [Z.to_int].
  - exists 48, []. auto.
  - destruct (to_uint_head p) as (d & ds & E & _). rewrite digit_chars_eq, E.
    eexists _, _. split; [reflexivity|]. right. apply char_of_digit_is_digit.
  - eexists _, _. split; [reflexivity|]. auto.
Qed.

Lemma scan_int_value depth z c r :
  ends_number c = true ->
  scan_once (S depth) (int_repr z ++ c :: r) = Some (JInt z, c :: r).
Proof.
  intros Hc. pose proof (match_number_int_repr z c r Hc) as Hm.
  destruct (int_repr_head z) as (c0 & cs & E & Hc0). rewrite E in *.
  cbn [app scan_once] in *.
  assert (Hne : forall k, In k [34; 123; 91; 110; 116; 102] -> (c0 =? k) = false).
  { intros k Hk. apply N.eqb_neq. intros ->.
    destruct Hc0 as [->|Hd];
      cbn in Hk; decompose [or] Hk; subst; try discriminate; contradiction. }
  rewrite !Hne by (cbn; auto 10).
  assert (Hp : forall w ws, In w [110; 116; 102] ->
               strip_prefix (w :: ws) (c0 :: cs ++ c :: r) = None).
  { intros w ws Hw. cbn [strip_prefix].
    assert (E' : (w =? c0) = false).
    { rewrite N.eqb_sym. apply Hne. cbn in *. tauto. }
    rewrite E'. reflexivity. }
  change (lit "null") with (110 :: lit "ull").
  change (lit "true") with (116 :: lit "rue").
  change (lit "false") with (102 :: lit "alse").
  rewrite !Hp by (cbn; auto). rewrite Hm. reflexivity.
Qed.
(** *** Dicts *)

Definition json_of_atom (a : atom) : json :=
  match a with
  | AInt z => JInt z
  | AStr s => JStr s
  end.

Definition plain_atomP (a : atom) : Prop :=
  match a with
  | AInt _ => True
  | AStr s => plain_strP s
  end.

Definition plain_itemP (kv : pystr * atom) : Prop :=
  plain_strP kv.1 /\ plain_atomP kv.2.

(** One key, its separator and its value, as [_iterencode_dict] writes
    them. *)
Definition item_chunk (kv : pystr * atom) : pystr :=
  encode_basestring_ascii kv.1 ++ [58; 32] ++ encode_atom kv.2.

Lemma skip_ws_newline_indent level s :
  skip_ws (newline_indent level ++ s) = skip_ws s.
Proof.
  unfold newline_indent. cbn [app skip_ws is_ws N.eqb Pos.eqb orb].
  induction (4 * level)%nat as [|n IH]; [reflexivity|exact IH].
Qed.

Lemma skip_ws_stop c r : is_ws c = false -> skip_ws (c :: r) = c :: r.
Proof. intros H. cbn [skip_ws]. rewrite H. reflexivity. Qed.

Lemma encode_atom_head a :
  exists c0 cs, encode_atom a = c0 :: cs /\ is_ws c0 = false.
Proof.
  destruct a as [z|s]; cbn [encode_atom].
  - destruct (int_repr_head z) as (c0 & cs & E & [->|Hd]); eexists _, _; (split; [exact E|]);
      [reflexivity|].
    unfold is_digit in Hd. apply andb_prop in Hd as [H1 H2].
    apply N.leb_le in H1, H2. unfold is_ws.
    repeat (match goal with
            | |- context [N.eqb c0 ?k] => destruct (N.eqb_spec c0 k) as [?|_]; [lia|]
            end).
    reflexivity.
  - unfold encode_basestring_ascii. eexists _, _. split; reflexivity.
Qed.

Lemma skip_ws_encode_atom a r : skip_ws (encode_atom a ++ r) = encode_atom a ++ r.
Proof.
  destruct (encode_atom_head a) as (c0 & cs & -> & H). cbn [app].
  apply skip_ws_stop. exact H.
Qed.

Lemma scan_atom depth a c r :
  plain_atomP a -> ends_number c = true ->
  scan_once (S depth) (encode_atom a ++ c :: r) = Some (json_of_atom a, c :: r).
Proof.
  intros Ha Hc. destruct a as [z|s]; cbn [encode_atom json_of_atom].
  - apply scan_int_value. exact Hc.
  - destruct Ha as [Hwf Hns]. apply scan_string_value; assumption.
Qed.

Lemma length_join_chunks {A} (f : A -> pystr) c sep (l : list A) :
  (length l <= length (join_chunks false (c :: sep) (map f l)))%nat.
Proof.
  induction l as [|x l IH]; cbn [map join_chunks length]; [lia|].
  rewrite !length_app. cbn [length]. lia.
Qed.

(** The loop of [JSONObject] reads back the items of a dict. *)
Lemma JSONObject_loop_items depth level rest items : forall k a fuel,
  plain_strP k -> plain_atomP a -> Forall plain_itemP items ->
  (length items < fuel)%nat ->
  JSONObject_loop (scan_once (S depth)) fuel
    (escape_body k ++ 34 :: 58 :: 32 :: encode_atom a
     ++ join_chunks false (44 :: newline_indent (S level)) (map item_chunk items)
     ++ newline_indent level ++ 125 :: rest)
  = Some ((k, json_of_atom a) :: map (fun kv => (kv.1, json_of_atom kv.2)) items, rest).
Proof.
  induction items as [|[k' a'] items IH]; intros k a fuel [Hwf Hns] Ha Hitems Hfuel;
    (destruct fuel as [|fuel]; [inversion Hfuel|]); cbn [JSONObject_loop].
  - rewrite scanstring_escape_body by (auto; rewrite length_app; cbn [length]; lia).
    cbn [mbind option_bind].
    rewrite skip_ws_stop by reflexivity. cbn [N.eqb Pos.eqb].
    cbn [skip_ws is_ws N.eqb Pos.eqb orb]. rewrite skip_ws_encode_atom.
    cbn [map join_chunks app].
    unfold newline_indent at 1. cbn [app].
    rewrite scan_atom by (auto; reflexivity). cbn [mbind option_bind].
    change (10 :: repeat 32 (4 * level)%nat ++ 125 :: rest)
      with (newline_indent level ++ 125 :: rest).
    rewrite skip_ws_newline_indent, skip_ws_stop by reflexivity.
    reflexivity.
  - apply Forall_cons in Hitems as [[Hk' Ha'] Hitems]. cbn [fst snd] in *.
    rewrite scanstring_escape_body by (auto; rewrite length_app; cbn [length]; lia).
    cbn [mbind option_bind].
    rewrite skip_ws_stop by reflexivity. cbn [N.eqb Pos.eqb].
    cbn [skip_ws is_ws N.eqb Pos.eqb orb]. rewrite skip_ws_encode_atom.
    cbn [map join_chunks]. rewrite <- !app_assoc. cbn [app].
    rewrite scan_atom by (auto; reflexivity). cbn [mbind option_bind].
    rewrite skip_ws_stop by reflexivity. cbn [N.eqb Pos.eqb].
    rewrite skip_ws_newline_indent.
    unfold item_chunk at 1, encode_basestring_ascii at 1. cbn [fst snd].
    rewrite <- !app_assoc. cbn [app].
    rewrite skip_ws_stop by reflexivity. cbn [N.eqb Pos.eqb].
    rewrite <- !app_assoc. cbn [app].
    rewrite IH by (auto; cbn [length] in Hfuel; lia).
    reflexivity.
Qed.
Definition json_of_items (items : list (pystr * atom)) : list (pystr * json) :=
  map (fun kv => (kv.1, json_of_atom kv.2)) items.

(** The value [json.load] builds for a task dict. *)
Definition task_json (t : task) : json := JDict (json_of_items (task_items t)).

Lemma iterencode_dict_head level dct :
  exists cs, iterencode_dict level dct = 123 :: cs.
Proof. destruct dct; eexists; reflexivity. Qed.

Lemma skip_ws_iterencode_dict level dct r :
  skip_ws (iterencode_dict level dct ++ r) = iterencode_dict level dct ++ r.
Proof.
  destruct (iterencode_dict_head level dct) as [cs ->]. cbn [app].
  apply skip_ws_stop. reflexivity.
Qed.

Lemma scan_once_brace depth r :
  scan_once (S depth) (123 :: r)
  = '(d, rest) ← JSONObject (scan_once depth) r; Some (JDict d, rest).
Proof. reflexivity. Qed.

Lemma scan_once_bracket depth r :
  scan_once (S depth) (91 :: r)
  = '(l, rest) ← JSONArray (scan_once depth) r; Some (JList l, rest).
Proof. reflexivity. Qed.

(** [scan_once] reads back a non-empty dict. *)
Lemma scan_dict depth level k a items rest :
  plain_itemP (k, a) -> Forall plain_itemP items ->
  scan_once (S (S depth)) (iterencode_dict level ((k, a) :: items) ++ rest)
  = Some (JDict (dict_of_pairs (json_of_items ((k, a) :: items))), rest).
Proof.
  intros [Hk Ha] Hitems. cbn [fst snd] in *.
  unfold iterencode_dict.
  change (fun kv : pystr * atom =>
            encode_basestring_ascii kv.1 ++ [58; 32] ++ encode_atom kv.2)
    with item_chunk.
  cbn [map join_chunks].
  unfold item_chunk at 1, encode_basestring_ascii at 1.
  cbn [fst snd]. rewrite <- !app_assoc. cbn [app].
  rewrite scan_once_brace. unfold JSONObject.
  rewrite skip_ws_newline_indent, skip_ws_stop by reflexivity.
  cbn [N.eqb Pos.eqb]. rewrite <- !app_assoc. cbn [app].
  rewrite JSONObject_loop_items; [reflexivity|exact Hk|exact Ha|exact Hitems|].
  pose proof (length_join_chunks item_chunk 44 (newline_indent (S level)) items).
  repeat (rewrite !length_app; cbn [length]). lia.
Qed.

Lemma task_items_plain t : plain_taskP t -> Forall plain_itemP (task_items t).
Proof.
  intros (Ht & Hd & Hdd & Hp).
  assert (Hlit : forall s, str_in_range (lit s) -> no_surrogate_pair (lit s) = true
                           -> plain_strP (lit s)) by (intros; split; assumption).
  unfold task_items.
  repeat (constructor;
          [split; cbn [fst snd plain_atomP]; auto;
           apply Hlit; [repeat constructor|reflexivity]|]).
  constructor.
Qed.

Lemma scan_task depth level t rest :
  plain_taskP t ->
  scan_once (S (S depth)) (iterencode_dict level (task_items t) ++ rest)
  = Some (task_json t, rest).
Proof.
  intros Ht. pose proof (task_items_plain t Ht) as Hitems.
  unfold task_json. unfold task_items in *.
  apply Forall_cons in Hitems as [H1 Hitems].
  rewrite scan_dict by assumption. reflexivity.
Qed.

Lemma as_task_task_json t : as_task (task_json t) = Some t.
Proof. destruct t. reflexivity. Qed.

Lemma as_task_list_task_json l : as_task_list (JList (map task_json l)) = Some l.
Proof.
  cbn [as_task_list]. induction l as [|t l IH]; [reflexivity|].
  cbn [map mapM]. rewrite as_task_task_json. cbn [mbind option_bind].
  rewrite IH. reflexivity.
Qed.

(** *** The list *)

(** The loop of [JSONArray] reads back the dicts of the list. *)
Lemma JSONArray_loop_tasks depth rest ts : forall t fuel,
  plain_taskP t -> Forall plain_taskP ts ->
  (length ts < fuel)%nat ->
  JSONArray_loop (scan_once (S (S depth))) fuel
    (iterencode_dict 1 (task_items t)
     ++ join_chunks false (44 :: newline_indent 1)
          (map (iterencode_dict 1) (map task_items ts))
     ++ newline_indent 0 ++ 93 :: rest)
  = Some (task_json t :: map task_json ts, rest).
Proof.
  induction ts as [|t' ts IH]; intros t fuel Ht Hts Hfuel;
    (destruct fuel as [|fuel]; [inversion Hfuel|]); cbn [JSONArray_loop].
  - rewrite scan_task by exact Ht. cbn [mbind option_bind map join_chunks app].
    rewrite skip_ws_newline_indent, skip_ws_stop by reflexivity. reflexivity.
  - apply Forall_cons in Hts as [Ht' Hts].
    rewrite scan_task by exact Ht. cbn [mbind option_bind map join_chunks].
    rewrite <- !app_assoc. cbn [app].
    rewrite skip_ws_stop by reflexivity. cbn [N.eqb Pos.eqb].
    rewrite skip_ws_newline_indent, skip_ws_iterencode_dict.
    rewrite IH by (auto; cbn [length] in Hfuel; lia). reflexivity.
Qed.

(** [json.loads] reads back the list of task dicts [json.dump] wrote. *)
Lemma json_loads_json_dump l :
  Forall plain_taskP l ->
  json_loads (json_dump l) = Some (JList (map task_json l)).
Proof.
  intros Hl. destruct l as [|t ts]; [reflexivity|].
  apply Forall_cons in Hl as [Ht Hts].
  unfold json_dump, iterencode_list. cbn [map join_chunks].
  rewrite <- !app_assoc. cbn [app].
  unfold json_loads. cbn [head]. rewrite bool_decide_eq_false_2 by discriminate.
  rewrite skip_ws_stop by reflexivity.
  cbn [length]. rewrite scan_once_bracket. unfold JSONArray.
  rewrite !skip_ws_newline_indent, !skip_ws_iterencode_dict.
  destruct (iterencode_dict_head 1 (task_items t)) as [cs E].
  rewrite E at 1. cbn [app N.eqb Pos.eqb].
  set (n := length _).
  assert (Hn : (S (length ts) < n)%nat).
  { subst n.
    pose proof (length_join_chunks (iterencode_dict 1) 44 (newline_indent 1)
                  (map task_items ts)) as Hlen.
    rewrite length_map in Hlen.
    repeat (rewrite !length_app; cbn [length]).
    rewrite E. revert Hlen. generalize (length (join_chunks false (44 :: newline_indent 1)
                    (map (iterencode_dict 1) (map task_items ts)))).
    intros m Hlen. cbn [length]. lia. }
  destruct n as [|n]; [inversion Hn|].
  change (10 :: 93 :: @nil N) with (newline_indent 0 ++ 93 :: []).
  rewrite JSONArray_loop_tasks by (auto; lia).
  reflexivity.
Qed.
End RoundTrip.

(** ** Text *)

Section Text.
Local Open Scope N_scope.

(** A code point of Unicode text: a scalar value, that is, a code point
    of the range of [str] that is not a surrogate. *)
Definition scalar_value (c : N) : Prop := c < 0xd800 \/ (0xe000 <= c /\ c < 0x110000).






Lemma scalar_value_plain s : Forall scalar_value s -> plain_str s = true.
Proof.
  intros H. unfold plain_str. apply andb_true_intro. split.
  - unfold wf_str. apply forallb_forall. intros c Hc.
    rewrite Forall_forall in H. apply list_elem_of_In in Hc.
    specialize (H c Hc). apply N.ltb_lt. unfold scalar_value in H. lia.
  - induction H as [|a s Ha _ IH]; [reflexivity|].
    cbn [no_surrogate_pair]. rewrite IH, andb_true_r.
    destruct s as [|b s]; [reflexivity|].
    assert (E : is_high_surrogate a = false).
    { unfold is_high_surrogate, scalar_value in *.
      destruct (N.leb_spec 0xd800 a); [|reflexivity].
      destruct (N.leb_spec a 0xdbff); [lia|reflexivity]. }
    rewrite E. reflexivity.
Qed.

End Text.




(** * Further properties of the tool *)

(** ** Accepted due dates *)

Section AcceptedDates.
Local Open Scope N_scope.

Lemma decimal_value_inv c v :
  decimal_value c = Some v -> v < 10 /\ scalar_value c.
Proof.
  unfold decimal_value.
  destruct (List.find _ decimal_zeros) as [z|] eqn:E; [|discriminate].
  intros [= <-]. apply List.find_some in E as [Hin Hz].
  apply andb_prop in Hz as [H1 H2]. apply N.leb_le in H1. apply N.ltb_lt in H2.
  assert (Hall : forallb (fun z => (z + 10 <=? 0xd800) || ((0xe000 <=? z) && (z + 10 <=? 0x110000)))
                   decimal_zeros = true) by (vm_compute; reflexivity).
  rewrite forallb_forall in Hall. specialize (Hall z Hin).
  apply orb_prop in Hall. unfold scalar_value. split; [lia|].
  destruct Hall as [Hl|Hh].
  - apply N.leb_le in Hl. lia.
  - apply andb_prop in Hh as [Ha Hb]. apply N.leb_le in Ha, Hb. lia.
Qed.

Lemma re_d_inv s v r :
  (v, r) ∈ re_d s -> exists c, s = c :: r /\ v < 10 /\ scalar_value c.
Proof.
  unfold re_d. destruct s as [|c s]; [intros H; inversion H|].
  destruct (decimal_value c) as [v'|] eqn:E; [|intros H; inversion H].
  intros H. apply list_elem_of_singleton in H as [= -> ->].
  exists c. split; [reflexivity|]. apply decimal_value_inv, E.
Qed.

Lemma re_range_inv lo hi s v r :
  hi <= 9 ->
  (v, r) ∈ re_range lo hi s ->
  exists c, s = c :: r /\ lo <= v <= hi /\ scalar_value c.
Proof.
  intros Hhi. unfold re_range. destruct s as [|c s]; [intros H; inversion H|].
  destruct (_ && _) eqn:E; [|intros H; inversion H].
  intros H. apply list_elem_of_singleton in H as [= -> ->].
  apply andb_prop in E as [H1 H2]. apply N.leb_le in H1, H2.
  exists c. unfold scalar_value. split; [reflexivity|]. lia.
Qed.

Lemma re_char_inv x s r : r ∈ re_char x s -> s = x :: r.
Proof.
  unfold re_char. destruct s as [|c s]; [intros H; inversion H|].
  destruct (N.eqb_spec c x) as [->|_]; [|intros H; inversion H].
  intros H. apply list_elem_of_singleton in H as ->. reflexivity.
Qed.

(** What a group has read: the characters consumed, at least [lo] and at
    most [hi] of them, none a surrogate. *)
Definition consumed (s r : pystr) (lo hi : nat) : Prop :=
  exists pre, s = pre ++ r /\ (lo <= length pre <= hi)%nat /\ Forall scalar_value pre.

Lemma consumed_one c r : scalar_value c -> consumed (c :: r) r 1 1.
Proof.
  intros H. exists [c]. repeat split; cbn [length]; try lia.
  apply List.Forall_cons; [assumption|apply List.Forall_nil].
Qed.

Lemma consumed_trans s r t lo hi lo' hi' :
  consumed s r lo hi -> consumed r t lo' hi' -> consumed s t (lo + lo') (hi + hi').
Proof.
  intros (p & -> & Hl & Hp) (q & -> & Hl' & Hq). exists (p ++ q).
  rewrite <- app_assoc, length_app. repeat split; try lia.
  apply Forall_app; auto.
Qed.

Lemma consumed_weaken s r lo hi lo' hi' :
  (lo' <= lo)%nat -> (hi <= hi')%nat -> consumed s r lo hi -> consumed s r lo' hi'.
Proof. intros ? ? (p & -> & Hl & Hp). exists p. repeat split; auto; lia. Qed.

Lemma re_group_Y_inv s y r :
  (y, r) ∈ re_group_Y s -> y <= 9999 /\ consumed s r 4 4.
Proof.
  unfold re_group_Y. intros H.
  apply list_elem_of_bind in H as ([a s1] & H & Ha).
  apply list_elem_of_bind in H as ([b s2] & H & Hb).
  apply list_elem_of_bind in H as ([c s3] & H & Hc).
  apply list_elem_of_bind in H as ([d s4] & H & Hd).
  apply list_elem_of_singleton in H as [= -> ->].
  apply re_d_inv in Ha as (ca & -> & Hva & Hsa).
  apply re_d_inv in Hb as (cb & -> & Hvb & Hsb).
  apply re_d_inv in Hc as (cc & -> & Hvc & Hsc).
  apply re_d_inv in Hd as (cd & -> & Hvd & Hsd).
  split; [lia|]. exists [ca; cb; cc; cd]. repeat split; cbn [length]; try lia; repeat (apply List.Forall_cons; [assumption|]); apply List.Forall_nil.
Qed.

Lemma re_group_m_inv s m r :
  (m, r) ∈ re_group_m s -> 1 <= m <= 12 /\ consumed s r 1 2.
Proof.
  unfold re_group_m. intros H.
  apply elem_of_app in H as [H|H]; [|apply elem_of_app in H as [H|H]].
  - apply list_elem_of_bind in H as ([a s1] & H & Ha).
    apply list_elem_of_bind in H as ([b s2] & H & Hb).
    apply list_elem_of_singleton in H as [= -> ->].
    apply re_range_inv in Ha as (ca & -> & Hva & Hsa); [|lia].
    apply re_range_inv in Hb as (cb & -> & Hvb & Hsb); [|lia].
    split; [lia|]. exists [ca; cb]. repeat split; cbn [length]; try lia; repeat (apply List.Forall_cons; [assumption|]); apply List.Forall_nil.
  - apply list_elem_of_bind in H as ([a s1] & H & Ha).
    apply list_elem_of_bind in H as ([b s2] & H & Hb).
    apply list_elem_of_singleton in H as [= -> ->].
    apply re_range_inv in Ha as (ca & -> & Hva & Hsa); [|lia].
    apply re_range_inv in Hb as (cb & -> & Hvb & Hsb); [|lia].
    split; [lia|]. exists [ca; cb]. repeat split; cbn [length]; try lia; repeat (apply List.Forall_cons; [assumption|]); apply List.Forall_nil.
  - apply re_range_inv in H as (c & -> & Hv & Hs); [|lia].
    split; [lia|]. eapply consumed_weaken; [| |apply consumed_one, Hs]; lia.
Qed.

Lemma re_group_d_inv s d r :
  (d, r) ∈ re_group_d s -> 1 <= d <= 31 /\ consumed s r 1 2.
Proof.
  unfold re_group_d. intros H.
  apply elem_of_app in H as [H|H]; [|apply elem_of_app in H as [H|H];
    [|apply elem_of_app in H as [H|H]; [|apply elem_of_app in H as [H|H]]]].
  - apply list_elem_of_bind in H as ([a s1] & H & Ha).
    apply list_elem_of_bind in H as ([b s2] & H & Hb).
    apply list_elem_of_singleton in H as [= -> ->].
    apply re_range_inv in Ha as (ca & -> & Hva & Hsa); [|lia].
    apply re_range_inv in Hb as (cb & -> & Hvb & Hsb); [|lia].
    split; [lia|]. exists [ca; cb]. repeat split; cbn [length]; try lia; repeat (apply List.Forall_cons; [assumption|]); apply List.Forall_nil.
  - apply list_elem_of_bind in H as ([a s1] & H & Ha).
    apply list_elem_of_bind in H as ([b s2] & H & Hb).
    apply list_elem_of_singleton in H as [= -> ->].
    apply re_range_inv in Ha as (ca & -> & Hva & Hsa); [|lia].
    apply re_d_inv in Hb as (cb & -> & Hvb & Hsb).
    split; [lia|]. exists [ca; cb]. repeat split; cbn [length]; try lia; repeat (apply List.Forall_cons; [assumption|]); apply List.Forall_nil.
  - apply list_elem_of_bind in H as ([a s1] & H & Ha).
    apply list_elem_of_bind in H as ([b s2] & H & Hb).
    apply list_elem_of_singleton in H as [= -> ->].
    apply re_range_inv in Ha as (ca & -> & Hva & Hsa); [|lia].
    apply re_range_inv in Hb as (cb & -> & Hvb & Hsb); [|lia].
    split; [lia|]. exists [ca; cb]. repeat split; cbn [length]; try lia; repeat (apply List.Forall_cons; [assumption|]); apply List.Forall_nil.
  - apply re_range_inv in H as (c & -> & Hv & Hs); [|lia].
    split; [lia|]. eapply consumed_weaken; [| |apply consumed_one, Hs]; lia.
  - apply list_elem_of_bind in H as (s1 & H & Hsp).
    apply re_char_inv in Hsp as ->.
    apply re_range_inv in H as (c & -> & Hv & Hs); [|lia].
    split; [lia|]. exists [32; c]. repeat split; cbn [length]; try lia.
    apply List.Forall_cons; [left; reflexivity|].
    apply List.Forall_cons; [assumption|apply List.Forall_nil].
Qed.

Lemma format_regex_match_inv s y m d rest :
  format_regex_match s = Some (y, m, d, rest) ->
  y <= 9999 /\ 1 <= m <= 12 /\ 1 <= d <= 31 /\ consumed s rest 8 10.
Proof.
  unfold format_regex_match. intros H. apply head_Some_elem_of in H.
  apply list_elem_of_bind in H as ([y' s1] & H & HY).
  apply list_elem_of_bind in H as (s2 & H & H1).
  apply list_elem_of_bind in H as ([m' s3] & H & HM).
  apply list_elem_of_bind in H as (s4 & H & H2).
  apply list_elem_of_bind in H as ([d' s5] & H & HD).
  apply list_elem_of_singleton in H as [= -> -> -> ->].
  apply re_group_Y_inv in HY as [Hy CY].
  apply re_char_inv in H1 as ->. apply re_group_m_inv in HM as [Hm CM].
  apply re_char_inv in H2 as ->. apply re_group_d_inv in HD as [Hd CD].
  repeat split; try lia.
  assert (Hdash : forall r, consumed (45 :: r) r 1 1)
    by (intros r; apply consumed_one; left; reflexivity).
  pose proof (consumed_trans _ _ _ _ _ _ _ CY
                (consumed_trans _ _ _ _ _ _ _ (Hdash _)
                   (consumed_trans _ _ _ _ _ _ _ CM
                      (consumed_trans _ _ _ _ _ _ _ (Hdash _) CD)))) as C.
  eapply consumed_weaken; [| |exact C]; lia.
Qed.

(** Whatever [strptime] accepts names a day of the calendar, in eight to
    ten characters, none of them a surrogate. *)
Lemma strptime_inv s y m d :
  strptime s = inr (y, m, d) ->
  1 <= y <= 9999 /\ 1 <= m <= 12 /\ 1 <= d <= days_in_month y m
  /\ (8 <= length s <= 10)%nat /\ Forall scalar_value s.
Proof.
  unfold strptime.
  destruct (format_regex_match s) as [[[[y' m'] d'] rest]|] eqn:E; [|discriminate].
  destruct rest; [|discriminate].
  destruct (N.ltb_spec y' 1); [discriminate|].
  destruct (N.ltb_spec (days_in_month y' m') d'); [discriminate|].
  intros [= -> -> ->].
  apply format_regex_match_inv in E as (Hy & Hm & Hd & pre & -> & Hlen & Hpre).
  rewrite app_nil_r. repeat split; auto; lia.
Qed.
End AcceptedDates.

Section AcceptedDatesUse.
Local Open Scope N_scope.

(** X9.  A due date that [add_task] accepts names a day of the calendar:
    the year is between 1 and 9999, the month between 1 and 12, the day
    between 1 and the length of that month in that year.  Its text has
    eight to ten characters, every one a scalar value: none is a
    surrogate code point, so it is read back from the file as it was
    written. *)
Theorem accepted_due_date_is_calendar_day
    st title description due_date priority r st' :
  add_task title description due_date priority st = (Return r, st') ->
  exists y m d,
    strptime due_date = inr (y, m, d)
    /\ 1 <= y <= 9999 /\ 1 <= m <= 12 /\ 1 <= d <= days_in_month y m
    /\ days_in_month y m <= 31
    /\ (8 <= length due_date <= 10)%nat
    /\ Forall scalar_value due_date
    /\ plain_str due_date = true.
Proof.
  intros H. apply add_task_returns in H as (Hv & _ & _).
  apply valid_input_iff in Hv as (_ & _ & [[y m] d] & Hd).
  exists y, m, d. split; [exact Hd|].
  apply strptime_inv in Hd as (Hy & Hm & Hday & Hlen & Hs).
  pose proof (days_in_month_le_31 y m).
  repeat split; try lia; [exact Hs|]. apply scalar_value_plain, Hs.
Qed.

Lemma accepted_due_date_is_calendar_day_witness :
  exists y m d,
    strptime (lit "2024-7-5") = inr (y, m, d)
    /\ 1 <= y <= 9999 /\ 1 <= m <= 12 /\ 1 <= d <= days_in_month y m
    /\ days_in_month y m <= 31
    /\ (8 <= length (lit "2024-7-5") <= 10)%nat
    /\ Forall scalar_value (lit "2024-7-5")
    /\ plain_str (lit "2024-7-5") = true.
Proof.
  apply (accepted_due_date_is_calendar_day fresh_store
           (lit "Write report") (lit "Q3 summary") (lit "2024-7-5") (lit "High") None
           (added fresh_store (lit "Write report") (lit "Q3 summary") (lit "2024-7-5")
              (lit "High"))).
  apply add_task_valid. vm_compute. reflexivity.
Defined.
End AcceptedDatesUse.

(** ** The [add] command *)

(** X1.  The [add] command never raises.  On valid input it stores the
    record as [add_task] does and prints the success message; on invalid
    input it prints one error message that carries the text of the first
    failed check, and leaves the store and every file as they were. *)
Theorem add_command_outcome st title description due_date priority :
  fst (add title description due_date priority st) = Return tt
  /\ (valid_input title due_date priority = true ->
      snd (add title description due_date priority st)
      = mk_state (task_manager (added st title description due_date priority))
                 (files (added st title description due_date priority))
                 (console st ++ [Markup "[green]Task successfully added![/green]"]))
  /\ (valid_input title due_date priority = false ->
      exists msg,
        fst (add_task title description due_date priority st) = Raise (ValueError msg)
        /\ In msg [msg_title; msg_priority; msg_due_date]
        /\ snd (add title description due_date priority st)
           = mk_state (task_manager st) (files st)
                      (console st ++ [Markup ("[red]Error: " +:+ msg +:+ "[/red]")])).
Proof.
  unfold add, try_except, bind, print.
  destruct (valid_input title due_date priority) eqn:Hv.
  - rewrite add_task_valid by exact Hv. split; [reflexivity|].
    split; [reflexivity|discriminate].
  - destruct (add_task_invalid_msg st title description due_date priority Hv)
      as (msg & He & Hin).
    rewrite He. split; [reflexivity|].
    split; [discriminate|]. intros _. exists msg. split; [reflexivity|].
    split; [exact Hin|reflexivity].
Qed.

Lemma add_command_outcome_witness :
  snd (add (lit "Review") [] (lit "2024-07-20") (lit "Low") fresh_store)
  = mk_state (task_manager (added fresh_store (lit "Review") [] (lit "2024-07-20") (lit "Low")))
             (files (added fresh_store (lit "Review") [] (lit "2024-07-20") (lit "Low")))
             [Markup "[green]Task successfully added![/green]"]
  /\ exists msg,
       fst (add_task (lit "Review") [] (lit "2024-07-20") (lit "low") fresh_store)
         = Raise (ValueError msg)
       /\ In msg [msg_title; msg_priority; msg_due_date]
       /\ snd (add (lit "Review") [] (lit "2024-07-20") (lit "low") fresh_store)
          = mk_state (task_manager fresh_store) (files fresh_store)
                     (console fresh_store ++ [Markup ("[red]Error: " +:+ msg +:+ "[/red]")]).
Proof.
  split.
  - apply (add_command_outcome fresh_store (lit "Review") [] (lit "2024-07-20") (lit "Low")).
    vm_compute. reflexivity.
  - apply (add_command_outcome fresh_store (lit "Review") [] (lit "2024-07-20") (lit "low")).
    vm_compute. reflexivity.
Defined.

(** ** The [view] command *)

Section View.
Local Open Scope N_scope.



End View.





(** ** What is written to the file *)

Section Written.
Local Open Scope N_scope.

(** A line feed or a printable ASCII character. *)
Definition plain_ascii (c : N) : bool := (c =? 10) || ((32 <=? c) && (c <=? 126)).

Definition ascii_text (s : pystr) : Prop := Forall (fun c => plain_ascii c = true) s.

Lemma ascii_text_app s t : ascii_text s -> ascii_text t -> ascii_text (s ++ t).
Proof. intros. apply Forall_app. auto. Qed.

Lemma ascii_text_cons c s : plain_ascii c = true -> ascii_text s -> ascii_text (c :: s).
Proof. intros. apply List.Forall_cons; assumption. Qed.

Lemma ascii_text_nil : ascii_text [].
Proof. apply List.Forall_nil. Qed.

Lemma hex_digit_ascii k : k < 16 -> plain_ascii (hex_digit k) = true.
Proof.
  intros H. destruct k as [|p]; [reflexivity|].
  do 4 (try destruct p as [p|p|]); try reflexivity; lia.
Qed.

Lemma u_escape_ascii n : ascii_text (u_escape n).
Proof.
  unfold u_escape.
  repeat (apply ascii_text_cons;
          [first [reflexivity | apply hex_digit_ascii, N.mod_lt; discriminate]|]).
  apply ascii_text_nil.
Qed.

Lemma escape_char_ascii c : ascii_text (escape_char c).
Proof.
  unfold escape_char, needs_escape.
  destruct (N.eqb_spec c 92) as [->|H92]; [repeat constructor|].
  destruct (N.eqb_spec c 34) as [->|H34]; [repeat constructor|].
  cbn [orb].
  destruct ((32 <=? c) && (c <=? 126)) eqn:E; cbn [negb].
  - apply ascii_text_cons; [|apply ascii_text_nil].
    unfold plain_ascii. rewrite E. apply orb_true_r.
  - unfold replace, escape_dct.
    apply N.eqb_neq in H92, H34. rewrite H92, H34.
    repeat (match goal with
            | |- context [N.eqb c ?k] =>
                destruct (N.eqb_spec c k) as [->|_]; [repeat constructor|]
            end).
    destruct (c <? 32); [apply u_escape_ascii|].
    destruct (c <? 0x10000); [apply u_escape_ascii|].
    apply ascii_text_app; apply u_escape_ascii.
Qed.

Lemma escape_body_ascii s : ascii_text (escape_body s).
Proof.
  unfold escape_body. induction s as [|c s IH]; cbn [map concat]; [apply ascii_text_nil|].
  apply ascii_text_app; [apply escape_char_ascii|exact IH].
Qed.

Lemma encode_basestring_ascii_ascii s : ascii_text (encode_basestring_ascii s).
Proof.
  unfold encode_basestring_ascii. apply ascii_text_cons; [reflexivity|].
  apply ascii_text_app; [apply escape_body_ascii|repeat constructor].
Qed.

Lemma digit_chars_ascii u : ascii_text (digit_chars u).
Proof.
  rewrite digit_chars_eq. induction (DecimalFacts.to_list u) as [|d l IH];
    cbn [map]; [apply ascii_text_nil|].
  apply ascii_text_cons; [destruct d; reflexivity|exact IH].
Qed.

Lemma int_repr_ascii z : ascii_text (int_repr z).
Proof.
  unfold int_repr. destruct (Z.to_int z); [apply digit_chars_ascii|].
  apply ascii_text_cons; [reflexivity|apply digit_chars_ascii].
Qed.

Lemma newline_indent_ascii level : ascii_text (newline_indent level).
Proof.
  unfold newline_indent. apply ascii_text_cons; [reflexivity|].
  induction (4 * level)%nat as [|n IH]; cbn [repeat]; [apply ascii_text_nil|].
  apply ascii_text_cons; [reflexivity|exact IH].
Qed.

Lemma join_chunks_ascii first sep chunks :
  ascii_text sep -> Forall ascii_text chunks -> ascii_text (join_chunks first sep chunks).
Proof.
  intros Hsep H. revert first. induction H as [|c chunks Hc _ IH]; intros first;
    cbn [join_chunks]; [apply ascii_text_nil|].
  apply ascii_text_app; [|apply IH].
  destruct first; [exact Hc|apply ascii_text_app; assumption].
Qed.

Lemma iterencode_dict_ascii level t : ascii_text (iterencode_dict level (task_items t)).
Proof.
  unfold iterencode_dict, task_items. cbn [map fst snd encode_atom].
  repeat first
    [ apply ascii_text_app
    | apply newline_indent_ascii
    | apply join_chunks_ascii
    | apply ascii_text_cons; [reflexivity|]
    | apply ascii_text_nil
    | apply List.Forall_cons
    | apply List.Forall_nil
    | apply encode_basestring_ascii_ascii
    | apply escape_body_ascii
    | apply int_repr_ascii ].
Qed.

Lemma json_dump_ascii l : ascii_text (json_dump l).
Proof.
  unfold json_dump, iterencode_list.
  destruct (map task_items l) as [|x xs] eqn:E; [repeat constructor|].
  rewrite <- E.
  repeat first
    [ apply ascii_text_app
    | apply newline_indent_ascii
    | apply join_chunks_ascii
    | apply ascii_text_cons; [reflexivity|]
    | apply ascii_text_nil ].
  clear E. induction l as [|t l IH]; cbn [map]; [apply List.Forall_nil|].
  apply List.Forall_cons; [apply iterencode_dict_ascii|exact IH].
Qed.
End Written.

(** X5.  Whatever the fields of the tasks hold, the text written to the
    file consists of line feeds and printable ASCII characters only:
    every other character of a field is written as an escape. *)
Theorem saved_text_is_ascii st :
  exists text,
    files (snd (save_to_json st)) !! json_file (task_manager st) = Some text
    /\ Forall (fun c => (c = 10 \/ 32 <= c <= 126)%N) text.
Proof.
  exists (json_dump (task_list (task_manager st))).
  split; [apply lookup_insert_eq|].
  eapply Forall_impl; [apply json_dump_ascii|].
  intros c Hc. unfold plain_ascii in Hc. apply orb_prop in Hc as [Hc|Hc].
  - left. apply N.eqb_eq, Hc.
  - right. apply andb_prop in Hc as [H1 H2]. apply N.leb_le in H1, H2. auto.
Qed.

(** ** The file and the collection *)

(** The file of the store holds the dump of the collection in memory. *)
Definition in_sync (st : state) : Prop :=
  files st !! json_file (task_manager st)
  = Some (json_dump (task_list (task_manager st))).

Lemma view_keeps_files renders st : files (snd (view renders st)) = files st.
Proof.
  unfold view, bind, get_self, print, raise.
  destruct (task_list (task_manager st)); [reflexivity|].
  destruct (renders _); reflexivity.
Qed.

(** X6.  A successful [add_task] and [save_to_json] leave the file of the
    store equal to the dump of the collection in memory, whatever the
    file held before.  Once this agreement holds, no operation of the
    tool breaks it: not [add_task] or the [add] command, whether they
    succeed or fail, and not [view], whether or not the console renders
    the table. *)
Theorem file_agrees_with_collection renders st title description due_date priority :
  in_sync (snd (save_to_json st))
  /\ (valid_input title due_date priority = true ->
      in_sync (snd (add_task title description due_date priority st))
      /\ in_sync (snd (add title description due_date priority st)))
  /\ (in_sync st ->
      in_sync (snd (add_task title description due_date priority st))
      /\ in_sync (snd (add title description due_date priority st))
      /\ in_sync (snd (view renders st))).
Proof.
  assert (Hvalid : valid_input title due_date priority = true ->
                   in_sync (snd (add_task title description due_date priority st))
                   /\ in_sync (snd (add title description due_date priority st))).
  { intros Hv. unfold add, try_except, bind, print.
    rewrite add_task_valid by exact Hv. unfold in_sync.
    cbn [snd added task_manager files json_file task_list].
    split; apply lookup_insert_eq. }
  split; [apply lookup_insert_eq|]. split; [exact Hvalid|].
  intros Hs. destruct (valid_input title due_date priority) eqn:Hv.
  - destruct (Hvalid eq_refl) as [H1 H2]. repeat split; [exact H1|exact H2|].
    unfold in_sync. rewrite view_keeps_store, view_keeps_files. exact Hs.
  - destruct (add_task_invalid_msg st title description due_date priority Hv)
      as (msg & He & _).
    unfold add, try_except, bind, print. rewrite He.
    repeat split; try exact Hs.
    unfold in_sync. rewrite view_keeps_store, view_keeps_files. exact Hs.
Qed.

Lemma file_agrees_with_collection_witness :
  in_sync (snd (add_task (lit "Review") [] (lit "2024-07-20") (lit "Low") fresh_store))
  /\ in_sync (snd (view (fun _ => false)
                     (added fresh_store (lit "Review") [] (lit "2024-07-20") (lit "Low")))).
Proof.
  split.
  - destruct (file_agrees_with_collection (fun _ => false) fresh_store
                (lit "Review") [] (lit "2024-07-20") (lit "Low")) as (_ & Hvalid & _).
    apply Hvalid. vm_compute. reflexivity.
  - destruct (file_agrees_with_collection (fun _ => false)
                (added fresh_store (lit "Review") [] (lit "2024-07-20") (lit "Low"))
                [] [] [] []) as (_ & _ & Hkeep).
    apply Hkeep. apply lookup_insert_eq.
Defined.

(** ** From one run of the tool to the next *)

Lemma priority_is_plain p : is_priority p -> plain_str p = true.
Proof. intros [H|[H|H]]; rewrite H; vm_compute; reflexivity. Qed.

Lemma load_json_dump path (fs : gmap string pystr) l :
  forallb plain_task l = true ->
  load_from_json path (<[path := json_dump l]> fs) = inr l.
Proof.
  intros H. apply plain_tasks_spec in H. unfold load_from_json.
  rewrite lookup_insert_eq, json_loads_json_dump by exact H.
  rewrite as_task_list_task_json. reflexivity.
Qed.

(** X7.  What a successful [add_task] has stored is what the next run of
    the tool starts with: initialising a store from the files the call
    left gives the collection the call left, new record included.  This
    holds when the title, the description and the text fields of the
    records already there have no high surrogate directly followed by a
    low one; the due date and the priority that passed the checks never
    have. *)
Theorem next_run_sees_added_task st title description due_date priority r st' :
  add_task title description due_date priority st = (Return r, st') ->
  forallb plain_task (task_list (task_manager st)) = true ->
  plain_str title = true -> plain_str description = true ->
  Task_init (json_file (task_manager st')) (files st') = inr (task_manager st')
  /\ start (json_file (task_manager st')) (files st')
     = inr (mk_state (task_manager st') (files st') [])
  /\ task_list (task_manager st')
     = task_list (task_manager st)
       ++ [mk_task (py_max (ids_of st) 0 + 1) title description due_date priority].
Proof.
  intros H Hold Ht Hd.
  apply add_task_returns in H as (Hv & _ & ->).
  apply valid_input_iff in Hv as (_ & Hp & [[y m] d] & Hdd).
  apply strptime_inv in Hdd as (_ & _ & _ & _ & Hdd).
  apply scalar_value_plain in Hdd. apply priority_is_plain in Hp.
  assert (E : Task_init (json_file (task_manager (added st title description due_date priority)))
                (files (added st title description due_date priority))
              = inr (task_manager (added st title description due_date priority))).
  { unfold Task_init. cbn [added task_manager files json_file task_list].
    rewrite load_json_dump; [reflexivity|].
    rewrite forallb_app, Hold. cbn [forallb]. unfold plain_task, new_record.
    cbn [task_title task_description task_due_date task_priority].
    rewrite Ht, Hd, Hdd, Hp. reflexivity. }
  split; [exact E|]. split; [unfold start; rewrite E; reflexivity|reflexivity].
Qed.

Lemma next_run_sees_added_task_witness :
  start "tasks.json"
    (files (added fresh_store (lit "Review") [] (lit "2024-07-20") (lit "Low")))
  = inr (mk_state
           (task_manager (added fresh_store (lit "Review") [] (lit "2024-07-20") (lit "Low")))
           (files (added fresh_store (lit "Review") [] (lit "2024-07-20") (lit "Low")))
           []).
Proof.
  apply (next_run_sees_added_task fresh_store (lit "Review") [] (lit "2024-07-20") (lit "Low")
           None (added fresh_store (lit "Review") [] (lit "2024-07-20") (lit "Low"))).
  - apply add_task_valid. vm_compute. reflexivity.
  - reflexivity.
  - vm_compute. reflexivity.
  - reflexivity.
Defined.

(** X8.  A file that exists but is empty, holds white space only, or
    starts with a byte order mark is not an empty store: [json.load]
    raises, the exception leaves [load_from_json] and [__init__], and no
    store is built.  Only a missing file gives the empty collection. *)
Theorem unreadable_file_is_not_empty_store (path : string) (fs : gmap string pystr) text :
  fs !! path = Some text ->
  forallb is_ws text = true \/ head text = Some 0xfeff%N ->
  load_from_json path fs = inl JSONDecodeError
  /\ Task_init path fs = inl JSONDecodeError
  /\ start path fs = inl JSONDecodeError
  /\ load_from_json path (delete path fs) = inr [].
Proof.
  intros Hf Htext.
  assert (E : json_loads text = None).
  { unfold json_loads. destruct Htext as [Hws|Hbom].
    - assert (Hskip : skip_ws text = []).
      { clear Hf. induction text as [|c text IH]; [reflexivity|].
        cbn [forallb] in Hws. apply andb_prop in Hws as [Hc Hws].
        cbn [skip_ws]. rewrite Hc. apply IH, Hws. }
      rewrite Hskip. case_bool_decide; reflexivity.
    - rewrite bool_decide_eq_true_2 by exact Hbom. reflexivity. }
  assert (L : load_from_json path fs = inl JSONDecodeError).
  { unfold load_from_json. rewrite Hf, E. reflexivity. }
  split; [exact L|]. unfold start, Task_init. rewrite L.
  split; [reflexivity|]. split; [reflexivity|].
  unfold load_from_json. rewrite lookup_delete_eq. reflexivity.
Qed.

Lemma unreadable_file_is_not_empty_store_witness :
  Task_init "tasks.json" (<["tasks.json" := []]> ∅) = inl JSONDecodeError.
Proof.
  apply (unreadable_file_is_not_empty_store "tasks.json" (<["tasks.json" := []]> ∅) []).
  - reflexivity.
  - left. reflexivity.
Defined.

(** ** Identifiers of the collection *)

Lemma new_id_above (ids : list Z) : Forall (fun i => (i < py_max ids 0 + 1)%Z) ids.
Proof.
  destruct ids as [|x l]; [apply List.Forall_nil|].
  destruct (py_max_spec (x :: l) 0) as [_ Hall]; [discriminate|].
  eapply Forall_impl; [exact Hall|]. intros; simpl in *; lia.
Qed.

(** X10.  [add_task] keeps what holds of the ids of the collection:
    when all are positive they stay positive, when they are pairwise
    different they stay so, and when they ascend along the collection
    they still do, the new record coming last with the largest id.  This
    holds whether the call succeeds or fails. *)
Theorem add_task_keeps_id_invariants st title description due_date priority :
  (Forall (fun i => (0 < i)%Z) (ids_of st) ->
   Forall (fun i => (0 < i)%Z)
     (ids_of (snd (add_task title description due_date priority st))))
  /\ (NoDup (ids_of st) ->
      NoDup (ids_of (snd (add_task title description due_date priority st))))
  /\ (StronglySorted Z.lt (ids_of st) ->
      StronglySorted Z.lt (ids_of (snd (add_task title description due_date priority st)))).
Proof.
  destruct (valid_input title due_date priority) eqn:Hv.
  - rewrite add_task_valid by exact Hv. cbn [snd]. rewrite ids_of_added.
    pose proof (new_id_above (ids_of st)) as Habove.
    split; [|split].
    + intros Hpos. apply Forall_app. split; [exact Hpos|].
      apply List.Forall_cons; [|apply List.Forall_nil].
      destruct (ids_of st) as [|x l] eqn:E; [reflexivity|].
      destruct (py_max_spec (x :: l) 0) as [Hin _]; [discriminate|].
      rewrite Forall_forall in Hpos. apply list_elem_of_In in Hin.
      specialize (Hpos _ Hin). cbv beta in Hpos. lia.
    + intros Hnd. apply NoDup_app. split; [exact Hnd|]. split.
      * intros i Hi Hin. apply list_elem_of_singleton in Hin as ->.
        rewrite Forall_forall in Habove. specialize (Habove _ Hi). cbv beta in Habove. lia.
      * apply NoDup_singleton.
    + intros Hs. apply StronglySorted_app. split; [|split; [exact Hs|repeat constructor]].
      intros i j Hi Hj. apply list_elem_of_singleton in Hj as ->.
      rewrite Forall_forall in Habove. exact (Habove _ Hi).
  - destruct (add_task_invalid st title description due_date priority Hv) as (e & -> & _).
    cbn [snd]. auto.
Qed.

Lemma add_task_keeps_id_invariants_witness :
  NoDup (ids_of (snd (add_task (lit "Review") [] (lit "2024-07-20") (lit "Low")
                        (added fresh_store (lit "Write report") (lit "Q3 summary")
                           (lit "2024-07-15") (lit "High"))))).
Proof.
  apply (add_task_keeps_id_invariants
           (added fresh_store (lit "Write report") (lit "Q3 summary") (lit "2024-07-15")
              (lit "High"))
           (lit "Review") [] (lit "2024-07-20") (lit "Low")).
  apply NoDup_singleton.
Defined.

(** ** Runs of the [add] command *)

Definition call : Type := pystr * pystr * pystr * pystr.

Definition valid_call (c : call) : bool := valid_input c.1.1.1 c.1.2 c.2.

(** The state after a series of [add] commands, one per call. *)
Definition run_add_commands (calls : list call) (st : state) : state :=
  fold_left (fun st c => snd (add c.1.1.1 c.1.1.2 c.1.2 c.2 st)) calls st.

(** The records of the calls that pass the checks, in call order,
    numbered upwards from [next_id]. *)
Fixpoint records_from (next_id : Z) (calls : list call) : list task :=
  match calls with
  | [] => []
  | c :: calls' =>
      if valid_call c
      then mk_task next_id c.1.1.1 c.1.1.2 c.1.2 c.2 :: records_from (next_id + 1) calls'
      else records_from next_id calls'
  end.

(** A stored record passes the three checks of [add_task]. *)
Definition stored_valid (t : task) : bool :=
  valid_input (task_title t) (task_due_date t) (task_priority t).

Lemma add_state st t d dd p :
  snd (add t d dd p st)
  = if valid_input t dd p
    then mk_state (task_manager (added st t d dd p)) (files (added st t d dd p))
                  (console st ++ [Markup "[green]Task successfully added![/green]"])
    else mk_state (task_manager st) (files st) (console (snd (add t d dd p st))).
Proof.
  unfold add, try_except, bind, print. destruct (valid_input t dd p) eqn:Hv.
  - rewrite add_task_valid by exact Hv. reflexivity.
  - destruct (add_task_invalid_msg st t d dd p Hv) as (msg & -> & _). reflexivity.
Qed.

Lemma add_console_length st t d dd p :
  length (console (snd (add t d dd p st))) = S (length (console st)).
Proof.
  unfold add, try_except, bind, print. destruct (valid_input t dd p) eqn:Hv.
  - rewrite add_task_valid by exact Hv. cbn. rewrite length_app. cbn. lia.
  - destruct (add_task_invalid_msg st t d dd p Hv) as (msg & -> & _).
    cbn. rewrite length_app. cbn. lia.
Qed.

Lemma records_from_ids k calls :
  map task_id (records_from k calls)
  = map (fun i => (k + Z.of_nat i)%Z) (seq 0 (length (List.filter valid_call calls))).
Proof.
  revert k. induction calls as [|c calls IH]; intros k; [reflexivity|].
  cbn [records_from List.filter]. destruct (valid_call c); [|apply IH].
  cbn [map length seq task_id]. rewrite IH. f_equal; [lia|].
  rewrite <- seq_shift, map_map. apply map_ext. intros; lia.
Qed.

Lemma records_from_valid k calls : forallb stored_valid (records_from k calls) = true.
Proof.
  revert k. induction calls as [|c calls IH]; intros k; [reflexivity|].
  cbn [records_from]. destruct (valid_call c) eqn:E; [|apply IH].
  cbn [forallb]. rewrite IH, andb_true_r. exact E.
Qed.

(** X11.  After any series of [add] commands the collection is the one
    before it followed by the records of the calls that passed the
    checks, in call order, with ids counting upwards from the largest id
    before plus one; calls that failed leave no trace in it.  Every
    command prints exactly one message.  From a fresh store the ids are
    1, 2, 3, ... and every stored record passes the checks. *)
Theorem add_commands_build_the_collection (calls : list call) (st : state) :
  task_list (task_manager (run_add_commands calls st))
  = task_list (task_manager st) ++ records_from (py_max (ids_of st) 0 + 1) calls
  /\ json_file (task_manager (run_add_commands calls st)) = json_file (task_manager st)
  /\ length (console (run_add_commands calls st))
     = (length (console st) + length calls)%nat
  /\ ids_of (run_add_commands calls fresh_store)
     = map Z.of_nat (seq 1 (length (List.filter valid_call calls)))
  /\ forallb stored_valid (task_list (task_manager (run_add_commands calls fresh_store)))
     = true.
Proof.
  assert (Hgen : forall calls st,
             task_list (task_manager (run_add_commands calls st))
             = task_list (task_manager st) ++ records_from (py_max (ids_of st) 0 + 1) calls
             /\ json_file (task_manager (run_add_commands calls st))
                = json_file (task_manager st)
             /\ length (console (run_add_commands calls st))
                = (length (console st) + length calls)%nat).
  { clear. induction calls as [|c calls IH]; intros st.
    - cbn. rewrite app_nil_r. repeat split; lia.
    - unfold run_add_commands in *. cbn [fold_left records_from length].
      destruct (IH (snd (add c.1.1.1 c.1.1.2 c.1.2 c.2 st))) as (Hl & Hf & Hc).
      rewrite Hl, Hf, Hc, add_console_length. clear IH Hl Hf Hc.
      rewrite add_state. unfold valid_call.
      destruct (valid_input c.1.1.1 c.1.2 c.2) eqn:Hv.
      + unfold ids_of at 1. cbn [task_manager added task_list json_file].
        fold (ids_of st). rewrite map_app. cbn [map new_record task_id].
        fold (ids_of st). rewrite py_max_snoc, <- app_assoc.
        repeat split; lia.
      + cbn [task_manager]. repeat split; lia. }
  destruct (Hgen calls st) as (Hl & Hf & Hc).
  split; [exact Hl|]. split; [exact Hf|]. split; [exact Hc|].
  destruct (Hgen calls fresh_store) as (Hl' & _ & _).
  unfold ids_of. rewrite Hl'. cbn [fresh_store task_manager task_list app map py_max].
  change (py_max (ids_of fresh_store) 0 + 1)%Z with 1%Z.
  split; [|apply records_from_valid].
  rewrite records_from_ids, <- seq_shift, map_map. apply map_ext. intros; lia.
Qed.

(** ** Reading back any collection *)

Section ReadBack.
Local Open Scope N_scope.

(** What the decoder makes of a string the encoder wrote: a high
    surrogate directly followed by a low surrogate comes back as the one
    character the pair stands for. *)
Fixpoint merge_pairs (s : pystr) : pystr :=
  match s with
  | a :: r =>
      match r with
      | b :: r' =>
          if is_high_surrogate a && is_low_surrogate b
          then 0x10000 + N.lor (N.shiftl (a - 0xd800) 10) (b - 0xdc00) :: merge_pairs r'
          else a :: merge_pairs r
      | [] => [a]
      end
  | [] => []
  end.

Definition merge_task (t : task) : task :=
  mk_task (task_id t) (merge_pairs (task_title t)) (merge_pairs (task_description t))
          (merge_pairs (task_due_date t)) (merge_pairs (task_priority t)).

Definition wf_task (t : task) : bool :=
  wf_str (task_title t) && wf_str (task_description t)
  && wf_str (task_due_date t) && wf_str (task_priority t).

Lemma merge_pairs_plain s : no_surrogate_pair s = true -> merge_pairs s = s.
Proof.
  induction s as [|a s IH]; [reflexivity|].
  intros H. apply no_surrogate_pair_cons in H as [Hns Hnext].
  cbn [merge_pairs]. destruct s as [|b s]; [reflexivity|].
  destruct (is_high_surrogate a) eqn:Ha; cbn [andb].
  - rewrite (Hnext eq_refl). rewrite IH by exact Hns. reflexivity.
  - rewrite IH by exact Hns. reflexivity.
Qed.

Lemma surrogate_escape c :
  is_high_surrogate c = true \/ is_low_surrogate c = true -> 
  escape_char c = u_escape c /\ c < 0x10000.
Proof.
  unfold is_high_surrogate, is_low_surrogate. intros H.
  assert (Hc : 0xd800 <= c <= 0xdfff).
  { destruct H as [H|H]; apply andb_prop in H as [H1 H2]; apply N.leb_le in H1, H2; lia. }
  clear H. unfold escape_char, needs_escape, replace, escape_dct.
  repeat (match goal with
          | |- context [N.eqb c ?k] => destruct (N.eqb_spec c k) as [?|_]; [lia|]
          end).
  cbn [orb]. destruct (N.leb_spec 32 c); [|lia]. destruct (N.leb_spec c 126); [lia|].
  cbn [andb negb]. destruct (N.ltb_spec c 32); [lia|].
  destruct (N.ltb_spec c 0x10000); [|lia]. split; [reflexivity|assumption].
Qed.

Lemma escape_body_cons c s : escape_body (c :: s) = escape_char c ++ escape_body s.
Proof. reflexivity. Qed.

(** [scanstring] reads any string the encoder wrote, joining the pairs. *)
Lemma scanstring_escape_body_any n : forall s fuel rest,
  (length s <= n)%nat ->
  str_in_range s ->
  (length (escape_body s) < fuel)%nat ->
  scanstring fuel (escape_body s ++ 34 :: rest) = Some (merge_pairs s, rest).
Proof.
  induction n as [|n IH]; intros s fuel rest Hn Hwf Hfuel.
  - destruct s; [|cbn in Hn; lia]. destruct fuel; [inversion Hfuel|]. reflexivity.
  - destruct s as [|a s]; [destruct fuel; [inversion Hfuel|]; reflexivity|].
    apply Forall_cons in Hwf as [Ha Hwf]. cbn [length] in Hn.
    rewrite escape_body_cons in *. rewrite length_app in Hfuel.
    pose proof (escape_char_nonempty a Ha) as Hpos.
    destruct fuel as [|fuel]; [lia|].
    rewrite <- app_assoc.
    destruct s as [|b s].
    + rewrite scanstring_step;
        [|exact Ha|intros _; apply second_escape_escape_body; [exact Hwf|exact I]].
      change (escape_body []) with (@nil N) in *. cbn [app length] in *.
      destruct fuel as [|fuel]; [lia|]. reflexivity.
    + destruct (is_high_surrogate a && is_low_surrogate b) eqn:E.
      * apply andb_prop in E as [Hha Hlb].
        apply Forall_cons in Hwf as [Hb Hwf].
        destruct (surrogate_escape a (or_introl Hha)) as [Ea Hla].
        destruct (surrogate_escape b (or_intror Hlb)) as [Eb Hlb'].
        rewrite escape_body_cons in *. rewrite Ea, Eb in *. rewrite <- !app_assoc.
        unfold u_escape at 1. cbn [app scanstring N.eqb Pos.eqb].
        rewrite decode_u_escape by exact Hla. rewrite Hha.
        rewrite second_escape_u_escape by exact Hlb'. rewrite Hlb.
        rewrite (IH s fuel rest);
          [|cbn [length] in Hn; lia|exact Hwf|].
        -- cbn [merge_pairs]. rewrite Hha, Hlb. reflexivity.
        -- rewrite !length_app in Hfuel. cbn [length u_escape] in Hfuel. lia.
      * rewrite scanstring_step; [|exact Ha|].
        -- rewrite (IH (b :: s) fuel rest); [|cbn [length] in *; lia|exact Hwf|lia].
           cbn [merge_pairs]. rewrite E. reflexivity.
        -- intros Hh. apply second_escape_escape_body; [exact Hwf|].
           rewrite Hh in E. cbn [andb] in E. exact E.
Qed.

Definition wf_atomP (a : atom) : Prop :=
  match a with
  | AInt _ => True
  | AStr s => str_in_range s
  end.

Definition merge_atom (a : atom) : atom :=
  match a with
  | AInt z => AInt z
  | AStr s => AStr (merge_pairs s)
  end.

Definition wf_itemP (kv : pystr * atom) : Prop := plain_strP kv.1 /\ wf_atomP kv.2.

Lemma scan_atom_any depth a c r :
  wf_atomP a -> ends_number c = true ->
  scan_once (S depth) (encode_atom a ++ c :: r) = Some (json_of_atom (merge_atom a), c :: r).
Proof.
  intros Ha Hc. destruct a as [z|s]; cbn [encode_atom json_of_atom merge_atom].
  - apply scan_int_value. exact Hc.
  - unfold encode_basestring_ascii.
    cbn [app scan_once N.eqb Pos.eqb]. rewrite <- app_assoc. cbn [app].
    rewrite (scanstring_escape_body_any (length s)); [reflexivity|lia|exact Ha|].
    rewrite length_app. simpl. lia.
Qed.

Lemma JSONObject_loop_items_any depth level rest items : forall k a fuel,
  plain_strP k -> wf_atomP a -> Forall wf_itemP items ->
  (length items < fuel)%nat ->
  JSONObject_loop (scan_once (S depth)) fuel
    (escape_body k ++ 34 :: 58 :: 32 :: encode_atom a
     ++ join_chunks false (44 :: newline_indent (S level)) (map item_chunk items)
     ++ newline_indent level ++ 125 :: rest)
  = Some ((k, json_of_atom (merge_atom a))
          :: map (fun kv => (kv.1, json_of_atom (merge_atom kv.2))) items, rest).
Proof.
  induction items as [|[k' a'] items IH]; intros k a fuel [Hwf Hns] Ha Hitems Hfuel;
    (destruct fuel as [|fuel]; [inversion Hfuel|]); cbn [JSONObject_loop].
  - rewrite scanstring_escape_body by (auto; rewrite length_app; cbn [length]; lia).
    cbn [mbind option_bind].
    rewrite skip_ws_stop by reflexivity. cbn [N.eqb Pos.eqb].
    cbn [skip_ws is_ws N.eqb Pos.eqb orb]. rewrite skip_ws_encode_atom.
    cbn [map join_chunks app].
    unfold newline_indent at 1. cbn [app].
    rewrite scan_atom_any by (auto; reflexivity). cbn [mbind option_bind].
    change (10 :: repeat 32 (4 * level)%nat ++ 125 :: rest)
      with (newline_indent level ++ 125 :: rest).
    rewrite skip_ws_newline_indent, skip_ws_stop by reflexivity.
    reflexivity.
  - apply Forall_cons in Hitems as [[Hk' Ha'] Hitems]. cbn [fst snd] in *.
    rewrite scanstring_escape_body by (auto; rewrite length_app; cbn [length]; lia).
    cbn [mbind option_bind].
    rewrite skip_ws_stop by reflexivity. cbn [N.eqb Pos.eqb].
    cbn [skip_ws is_ws N.eqb Pos.eqb orb]. rewrite skip_ws_encode_atom.
    cbn [map join_chunks]. rewrite <- !app_assoc. cbn [app].
    rewrite scan_atom_any by (auto; reflexivity). cbn [mbind option_bind].
    rewrite skip_ws_stop by reflexivity. cbn [N.eqb Pos.eqb].
    rewrite skip_ws_newline_indent.
    unfold item_chunk at 1, encode_basestring_ascii at 1. cbn [fst snd].
    rewrite <- !app_assoc. cbn [app].
    rewrite skip_ws_stop by reflexivity. cbn [N.eqb Pos.eqb].
    rewrite <- !app_assoc. cbn [app].
    rewrite IH by (auto; cbn [length] in Hfuel; lia).
    reflexivity.
Qed.

Lemma scan_dict_any depth level k a items rest :
  wf_itemP (k, a) -> Forall wf_itemP items ->
  scan_once (S (S depth)) (iterencode_dict level ((k, a) :: items) ++ rest)
  = Some (JDict (dict_of_pairs
                   (map (fun kv => (kv.1, json_of_atom (merge_atom kv.2))) ((k, a) :: items))),
          rest).
Proof.
  intros [Hk Ha] Hitems. cbn [fst snd] in *.
  unfold iterencode_dict.
  change (fun kv : pystr * atom =>
            encode_basestring_ascii kv.1 ++ [58; 32] ++ encode_atom kv.2)
    with item_chunk.
  cbn [map join_chunks].
  unfold item_chunk at 1, encode_basestring_ascii at 1.
  cbn [fst snd]. rewrite <- !app_assoc. cbn [app].
  rewrite scan_once_brace. unfold JSONObject.
  rewrite skip_ws_newline_indent, skip_ws_stop by reflexivity.
  cbn [N.eqb Pos.eqb]. rewrite <- !app_assoc. cbn [app].
  rewrite JSONObject_loop_items_any; [reflexivity|exact Hk|exact Ha|exact Hitems|].
  pose proof (length_join_chunks item_chunk 44 (newline_indent (S level)) items).
  repeat (rewrite !length_app; cbn [length]). lia.
Qed.

Definition wf_taskP (t : task) : Prop :=
  str_in_range (task_title t) /\ str_in_range (task_description t)
  /\ str_in_range (task_due_date t) /\ str_in_range (task_priority t).

Lemma wf_str_spec s : wf_str s = true -> str_in_range s.
Proof.
  unfold wf_str, str_in_range. intros H. rewrite forallb_forall in H.
  apply Forall_forall. intros c Hc. apply N.ltb_lt, H, list_elem_of_In, Hc.
Qed.

Lemma wf_task_spec t : wf_task t = true -> wf_taskP t.
Proof.
  unfold wf_task, wf_taskP. intros H.
  apply andb_prop in H as [H H4]. apply andb_prop in H as [H H3].
  apply andb_prop in H as [H1 H2]. auto using wf_str_spec.
Qed.

Lemma scan_task_any depth level t rest :
  wf_taskP t ->
  scan_once (S (S depth)) (iterencode_dict level (task_items t) ++ rest)
  = Some (task_json (merge_task t), rest).
Proof.
  intros (Ht & Hd & Hdd & Hp).
  assert (Hlit : forall s, plain_str (lit s) = true -> plain_strP (lit s))
    by (intros; apply plain_str_spec; assumption).
  unfold task_items.
  rewrite scan_dict_any.
  - reflexivity.
  - split; [apply Hlit; reflexivity|exact I].
  - repeat (apply List.Forall_cons;
            [split; [apply Hlit; reflexivity|cbn [snd wf_atomP]; assumption]|]).
    apply List.Forall_nil.
Qed.

Lemma JSONArray_loop_tasks_any depth rest ts : forall t fuel,
  wf_taskP t -> Forall wf_taskP ts ->
  (length ts < fuel)%nat ->
  JSONArray_loop (scan_once (S (S depth))) fuel
    (iterencode_dict 1 (task_items t)
     ++ join_chunks false (44 :: newline_indent 1)
          (map (iterencode_dict 1) (map task_items ts))
     ++ newline_indent 0 ++ 93 :: rest)
  = Some (task_json (merge_task t) :: map (fun t => task_json (merge_task t)) ts, rest).
Proof.
  induction ts as [|t' ts IH]; intros t fuel Ht Hts Hfuel;
    (destruct fuel as [|fuel]; [inversion Hfuel|]); cbn [JSONArray_loop].
  - rewrite scan_task_any by exact Ht. cbn [mbind option_bind map join_chunks app].
    rewrite skip_ws_newline_indent, skip_ws_stop by reflexivity. reflexivity.
  - apply Forall_cons in Hts as [Ht' Hts].
    rewrite scan_task_any by exact Ht. cbn [mbind option_bind map join_chunks].
    rewrite <- !app_assoc. cbn [app].
    rewrite skip_ws_stop by reflexivity. cbn [N.eqb Pos.eqb].
    rewrite skip_ws_newline_indent, skip_ws_iterencode_dict.
    rewrite IH by (auto; cbn [length] in Hfuel; lia). reflexivity.
Qed.

Lemma json_loads_json_dump_any l :
  Forall wf_taskP l ->
  json_loads (json_dump l) = Some (JList (map task_json (map merge_task l))).
Proof.
  intros Hl. destruct l as [|t ts]; [reflexivity|].
  apply Forall_cons in Hl as [Ht Hts].
  unfold json_dump, iterencode_list. cbn [map join_chunks].
  rewrite <- !app_assoc. cbn [app].
  unfold json_loads. cbn [head]. rewrite bool_decide_eq_false_2 by discriminate.
  rewrite skip_ws_stop by reflexivity.
  cbn [length]. rewrite scan_once_bracket. unfold JSONArray.
  rewrite !skip_ws_newline_indent, !skip_ws_iterencode_dict.
  destruct (iterencode_dict_head 1 (task_items t)) as [cs E].
  rewrite E at 1. cbn [app N.eqb Pos.eqb].
  set (n := length _).
  assert (Hn : (S (length ts) < n)%nat).
  { subst n.
    pose proof (length_join_chunks (iterencode_dict 1) 44 (newline_indent 1)
                  (map task_items ts)) as Hlen.
    rewrite length_map in Hlen.
    repeat (rewrite !length_app; cbn [length]).
    rewrite E. revert Hlen. generalize (length (join_chunks false (44 :: newline_indent 1)
                    (map (iterencode_dict 1) (map task_items ts)))).
    intros m Hlen. cbn [length]. lia. }
  destruct n as [|n]; [inversion Hn|].
  change (10 :: 93 :: @nil N) with (newline_indent 0 ++ 93 :: []).
  rewrite JSONArray_loop_tasks_any by (auto; lia).
  rewrite map_map. reflexivity.
Qed.
End ReadBack.

(** X12.  A file the tool has written can always be read back: loading
    after saving never fails, whatever the text fields hold.  It gives
    the records in the same order with the same ids, and each text field
    with every high surrogate that is directly followed by a low
    surrogate joined with it into the one character the pair stands
    for; a field without such a pair comes back unchanged. *)
Theorem load_after_save_joins_pairs (st : state) :
  forallb wf_task (task_list (task_manager st)) = true ->
  load_from_json (json_file (task_manager st)) (files (snd (save_to_json st)))
  = inr (map merge_task (task_list (task_manager st)))
  /\ map task_id (map merge_task (task_list (task_manager st)))
     = map task_id (task_list (task_manager st))
  /\ (forall s, no_surrogate_pair s = true -> merge_pairs s = s)
  /\ merge_pairs [0xd83d; 0xde00]%N = [0x1f600]%N.
Proof.
  intros H.
  assert (Hl : Forall wf_taskP (task_list (task_manager st))).
  { rewrite forallb_forall in H. apply Forall_forall. intros t Ht.
    apply wf_task_spec, H, list_elem_of_In, Ht. }
  split; [|split; [|split; [exact merge_pairs_plain|reflexivity]]].
  - unfold load_from_json, save_to_json, bind, get_self, write_file.
    cbn [snd files]. rewrite lookup_insert_eq.
    rewrite json_loads_json_dump_any by exact Hl.
    rewrite as_task_list_task_json. reflexivity.
  - rewrite map_map. reflexivity.
Qed.

Lemma load_after_save_joins_pairs_witness :
  load_from_json "tasks.json"
    (files (snd (save_to_json
       (mk_state
          (mk_Task "tasks.json"
             [mk_task 1 [0xd83d; 0xde00]%N (lit "Q3 summary") (lit "2024-07-15") (lit "High")])
          ∅ []))))
  = inr [mk_task 1 [0x1f600]%N (lit "Q3 summary") (lit "2024-07-15") (lit "High")].
Proof.
  apply (load_after_save_joins_pairs
           (mk_state
              (mk_Task "tasks.json"
                 [mk_task 1 [0xd83d; 0xde00]%N (lit "Q3 summary") (lit "2024-07-15")
                    (lit "High")])
              ∅ [])).
  vm_compute. reflexivity.
Defined.
